(** * Deploy orchestrator of the plan walker: a shallow embedding

    The development follows [packages/core/src/core/deploy/deploy_actions.ts].
    Promises are modelled by their settled outcome ([inl] a rejection, [inr] a
    fulfilment); the closure variables of [deployActions] ([appliedChanges],
    [deploymentUrls]), the element objects reachable from the plan and the
    calls made to the injected callbacks are threaded explicitly as a
    [RunState].  Element objects are mutated in place by the source, hence a
    store of objects and elements that point into it.  A handler runs from
    its start to its end without another one in between, and the calls to the
    logger are left out. *)

From stdpp Require Import base gmap strings list fin_maps.

Open Scope string_scope.
Open Scope list_scope.

(** ** Data model *)

(** Modelled from the spec: the [ElemID] class of adapter-api is missing.  An
    identifier is path-like and scoped to an adapter namespace; its full name
    joins the parts with dots. *)
Record ElemID := mkElemID { adapter : string; nameParts : list string }.

Definition getFullName (id : ElemID) : string :=
  String.concat "." (adapter id :: nameParts id).

(** Modelled from the spec: a field of an element holds a plain value or a
    reference, resolved to the value of the field it points to. *)
Inductive Value :=
  | VPrim (s : string)
  | VRef (target : string) (resolved : string).

Global Instance Value_eq_dec : EqDecision Value.
Proof. solve_decision. Defined.

(** An element object: the identifier is a read-only property, the fields
    live in the store at [obj] and are what a patch rewrites in place.  Two
    [Element]s with the same [obj] are the same JS object. *)
Record Element := mkElement { elemID : ElemID; obj : nat }.

Abbreviation Fields := (gmap string Value).
Abbreviation Store := (gmap nat (gmap string Value)).

Definition fullNameOf (e : Element) : string := getFullName (elemID e).

(** Modelled from the spec: a change is an addition (only an after state), a
    removal (only a before state) or a modification (both). *)
Inductive Change :=
  | Addition (after : Element)
  | Removal (before : Element)
  | Modification (before after : Element).

(** Modelled from the spec: adapter-api's [getChangeData] gives the after
    state of an addition or modification and the before state of a removal. *)
Definition getChangeData (c : Change) : Element :=
  match c with
  | Addition a => a
  | Removal b => b
  | Modification _ a => a
  end.

Definition isAdditionOrModificationChange (c : Change) : bool :=
  match c with
  | Removal _ => false
  | _ => true
  end.

(** Modelled from the spec: a plan item carries a group key and the ordered
    collection of its changes, a JS [Map] from node identifiers to changes. *)
Record PlanItem := mkPlanItem { groupKey : string; items : list (string * Change) }.

Definition changes (item : PlanItem) : list Change := (items item).*2.

(** ** Structural diff and patch *)

(** Modelled from the spec: [detailedCompare] and [applyDetailedChanges] of
    adapter-utils are missing; the spec calls them a structural diff and the
    patch that applies it in place.  A detailed change names one field. *)
Inductive DetailedChange :=
  | DAdd (field : string) (after : Value)
  | DRemove (field : string) (before : Value)
  | DModify (field : string) (before after : Value).

Definition removedFields (before after : Fields) : list DetailedChange :=
  omap (λ kv, match after !! kv.1 with
              | None => Some (DRemove kv.1 kv.2)
              | Some _ => None
              end) (map_to_list before).

Definition writtenFields (before after : Fields) : list DetailedChange :=
  omap (λ kv, match before !! kv.1 with
              | None => Some (DAdd kv.1 kv.2)
              | Some v => if decide (v = kv.2) then None
                          else Some (DModify kv.1 v kv.2)
              end) (map_to_list after).

Definition detailedCompare (before after : Fields) : list DetailedChange :=
  removedFields before after ++ writtenFields before after.

Definition applyDetailedChange (m : Fields) (c : DetailedChange) : Fields :=
  match c with
  | DAdd k v => <[k := v]> m
  | DRemove k _ => delete k m
  | DModify k _ v => <[k := v]> m
  end.

Definition applyDetailedChanges (m : Fields) (cs : list DetailedChange) : Fields :=
  foldl applyDetailedChange m cs.

(** [applyDetailedChanges(planElement, detailedCompare(planElement,
    updatedElement))]: both objects are read from the store as it is when the
    callback runs, and the plan element's object is overwritten. *)
Definition patchElement (σ : Store) (planElement updatedElement : Element) : Store :=
  <[obj planElement :=
      applyDetailedChanges (σ !!! obj planElement)
        (detailedCompare (σ !!! obj planElement) (σ !!! obj updatedElement))]> σ.

(** ** updatePlanElement *)

(** The names that a plain JS object inherits from [Object.prototype].  A
    lookup in a map below stands for a lookup among the own properties of the
    JS object; at these names the JS lookup finds the inherited property
    instead, which the maps do not cover. *)
Definition objectPrototypeKeys : list string :=
  ["constructor"; "__proto__"; "hasOwnProperty"; "isPrototypeOf";
   "propertyIsEnumerable"; "toLocaleString"; "toString"; "valueOf";
   "__defineGetter__"; "__defineSetter__"; "__lookupGetter__"; "__lookupSetter__"].

(** lodash's [keyBy]: a later element with the same key replaces an earlier
    one. *)
Definition keyBy {A} (f : A → string) (l : list A) : gmap string A :=
  foldl (λ m x, <[f x := x]> m) ∅ l.

Definition planElements (item : PlanItem) : list Element :=
  getChangeData <$> (items item).*2.

Definition patchStep (planElementById : gmap string Element)
    (σ : Store) (updatedElement : Element) : Store :=
  match planElementById !! fullNameOf updatedElement with
  | Some planElement => patchElement σ planElement updatedElement
  | None => σ
  end.

Definition updatePlanElement (item : PlanItem) (appliedChanges : list Change)
    (σ : Store) : Store :=
  let planElementById := keyBy fullNameOf (planElements item) in
  foldl (patchStep planElementById) σ
    (getChangeData <$> filter (λ c, isAdditionOrModificationChange c = true) appliedChanges).

(** ** Errors, adapters and the run state *)

(** A JS [Error] object, as far as the orchestrator reads it.  What an
    adapter or the hook rejects with is taken to be such an object: on a
    rejection with [null] or [undefined] the read of [error.message] in the
    inner [catch] throws itself, a case this development does not cover. *)
Record Error := mkError { errName : string; message : string }.

(** [new Error(msg)]. *)
Definition newError (msg : string) : Error := mkError "Error" msg.

(** [Error.prototype.toString], which [Array.prototype.join] applies to the
    adapter's errors. *)
Definition errorToString (e : Error) : string :=
  if decide (errName e = "") then message e
  else if decide (message e = "") then errName e
  else errName e +:+ ": " +:+ message e.

Definition newline : string := String (Ascii.ascii_of_nat 10) EmptyString.

Record DeployExtraProperties := mkExtra { deploymentUrls : option (list string) }.

Record DeployResult := mkDeployResult {
  appliedChanges : list Change;
  errors : list Error;
  extraProperties : option DeployExtraProperties }.

Record ChangeGroup := mkChangeGroup { groupID : string; groupChanges : list Change }.

Record DeployOptions := mkDeployOptions { changeGroup : ChangeGroup }.

(** An adapter operation settles to a rejection or a result, and may touch
    the element objects on its way. *)
Definition AdapterOperation : Type :=
  DeployOptions → Store → Store * (Error + DeployResult).

Record AdapterOperations := mkAdapter {
  deploy : AdapterOperation;
  validate : option AdapterOperation }.

Inductive ItemStatus := StatusStarted | StatusFinished | StatusError | StatusCancelled.

(** The calls the orchestrator makes to its collaborators, in order. *)
Inductive Event :=
  | ReportProgress (item : PlanItem) (status : ItemStatus) (details : option string)
  | AdapterDeploy (adapterName : string) (opts : DeployOptions)
  | AdapterValidate (adapterName : string) (opts : DeployOptions)
  | PostDeployAction (applied : list Change).

(** [rsAppliedChanges] and [rsDeploymentUrls] are the two arrays local to
    [deployActions]; [rsStore] holds the element objects; [rsTrace] records
    the calls made so far. *)
Record RunState := mkRunState {
  rsAppliedChanges : list Change;
  rsDeploymentUrls : list string;
  rsStore : Store;
  rsTrace : list Event }.

Definition emit (ev : Event) (st : RunState) : RunState :=
  mkRunState (rsAppliedChanges st) (rsDeploymentUrls st) (rsStore st) (rsTrace st ++ [ev]).

Definition setStore (σ : Store) (st : RunState) : RunState :=
  mkRunState (rsAppliedChanges st) (rsDeploymentUrls st) σ (rsTrace st).

Definition pushApplied (cs : list Change) (st : RunState) : RunState :=
  mkRunState (rsAppliedChanges st ++ cs) (rsDeploymentUrls st) (rsStore st) (rsTrace st).

Definition pushUrls (urls : list string) (st : RunState) : RunState :=
  mkRunState (rsAppliedChanges st) (rsDeploymentUrls st ++ urls) (rsStore st) (rsTrace st).

(** The progress sink returns [void]; it is taken not to throw. *)
Definition reportProgress (item : PlanItem) (status : ItemStatus)
    (details : option string) (st : RunState) : RunState :=
  emit (ReportProgress item status details) st.

Definition callAdapter (ev : Event) (op : AdapterOperation) (opts : DeployOptions)
    (st : RunState) : RunState * (Error + DeployResult) :=
  let r := op opts (rsStore st) in
  (setStore r.1 (emit ev st), r.2).

(** ** deployOrValidate and deployAction *)

Definition deployOrValidate (adapter : AdapterOperations) (adapterName : string)
    (opts : DeployOptions) (checkOnly : bool) (st : RunState)
    : RunState * (Error + DeployResult) :=
  if negb checkOnly then
    callAdapter (AdapterDeploy adapterName opts) (deploy adapter) opts st
  else
    match validate adapter with
    | None =>
        (st, inl (newError ("Check-Only deployment is not supported in adapter "
                            +:+ adapterName)))
    | Some validateOp =>
        callAdapter (AdapterValidate adapterName opts) validateOp opts st
    end.

(** [getChangeData(changes[0])] when [changes] is empty: [changes[0]] is
    [undefined] and reading its action raises a [TypeError].  The text of the
    message is the engine's; only the name is relied upon. *)
Definition undefinedChangeError : Error :=
  mkError "TypeError" "Cannot read properties of undefined (reading 'action')".

Definition deployAction (planItem : PlanItem) (adapters : gmap string AdapterOperations)
    (checkOnly : bool) (st : RunState) : RunState * (Error + DeployResult) :=
  let changes := changes planItem in
  match changes !! 0%nat with
  | None => (st, inl undefinedChangeError)
  | Some first =>
      let adapterName := adapter (elemID (getChangeData first)) in
      match adapters !! adapterName with
      | None => (st, inl (newError ("Missing adapter for " +:+ adapterName)))
      | Some adapter =>
          let opts := mkDeployOptions (mkChangeGroup (groupKey planItem) changes) in
          deployOrValidate adapter adapterName opts checkOnly st
      end
  end.

(** ** The per-node handler of deployActions *)

(** The hook settles to [None] or rejects with an error. *)
Definition PostDeployHook : Type := list Change → Store → Store * option Error.

Definition callPostDeployAction (hook : PostDeployHook) (applied : list Change)
    (st : RunState) : RunState * option Error :=
  let r := hook applied (rsStore st) in
  (setStore r.1 (emit (PostDeployAction applied) st), r.2).

Definition failureMessage (checkOnly : bool) (item : PlanItem) (result : DeployResult)
    : string :=
  "Failed to " +:+ (if checkOnly then "validate" else "deploy") +:+ " "
  +:+ groupKey item +:+ " with errors:" +:+ newline
  +:+ String.concat newline (errorToString <$> errors result).

(** The inner [catch]: report the error and throw it again. *)
Definition handlerCatch (item : PlanItem) (error : Error) (st : RunState)
    : RunState * option Error :=
  (reportProgress item StatusError (Some (message error)) st, Some error).

Definition recordUrls (result : DeployResult) (st : RunState) : RunState :=
  match extraProperties result with
  | Some extra =>
      match deploymentUrls extra with
      | Some urls => pushUrls urls st
      | None => st
      end
  | None => st
  end.

(** What the handler does once the dispatch has fulfilled with [result]. *)
Definition afterDispatch (item : PlanItem) (postDeployAction : PostDeployHook)
    (checkOnly : bool) (result : DeployResult) (st : RunState)
    : RunState * option Error :=
  let st := pushApplied (appliedChanges result) st in
  let st := recordUrls result st in
  let st := setStore (updatePlanElement item (appliedChanges result) (rsStore st)) st in
  match callPostDeployAction postDeployAction (appliedChanges result) st with
  | (st, Some error) => handlerCatch item error st
  | (st, None) =>
      match errors result with
      | [] => (reportProgress item StatusFinished None st, None)
      | _ :: _ => handlerCatch item (newError (failureMessage checkOnly item result)) st
      end
  end.

Definition nodeHandler (getItem : string → PlanItem)
    (adapters : gmap string AdapterOperations) (postDeployAction : PostDeployHook)
    (checkOnly : bool) (itemId : string) (st : RunState) : RunState * option Error :=
  let item := getItem itemId in
  let st := reportProgress item StatusStarted None st in
  match deployAction item adapters checkOnly st with
  | (st, inl error) => handlerCatch item error st
  | (st, inr result) => afterDispatch item postDeployAction checkOnly result st
  end.

(** ** The walker's interface and deployActions *)

(** Modelled from the spec: the classes [WalkError] and [NodeSkippedError] of
    the dag package are missing.  A walk that fails raises one aggregate: a
    map from node identifier to the error of that node, where a skipped node
    carries the node that caused the skip, and, if there is a cycle, a
    circular-dependency error naming the nodes on it. *)
Inductive NodeError :=
  | HandlerError (e : Error)
  | NodeSkippedError (causingNode : string).

Record CircularDependencyError := mkCircular {
  causingNodeIds : list string;
  circularMessage : string }.

Record WalkError := mkWalkError {
  handlerErrors : list (string * NodeError);
  circularDependencyError : option CircularDependencyError }.

(** What [await deployPlan.walkAsync(...)] may throw into the outer [catch]:
    a [WalkError], or any other error. *)
Inductive Thrown :=
  | ThrownWalkError (e : WalkError)
  | ThrownOther (e : Error).

Definition Handler : Type := string → RunState → RunState * option Error.

(** Modelled from the spec: the plan exposes item lookup by identifier and
    the walk operation; both are methods of the plan object, so a plan brings
    its own walker. *)
Record Plan := mkPlan {
  getItem : string → PlanItem;
  walkAsync : Handler → RunState → RunState * option Thrown }.

Record DeployError := mkDeployError {
  elementId : string + list string;
  deployMessage : string }.

Record DeployActionResult := mkDeployActionResult {
  resultErrors : list DeployError;
  resultAppliedChanges : list Change;
  resultExtraProperties : DeployExtraProperties }.

Definition skipMessage (key causingNode : string) : string :=
  "Element " +:+ key +:+ " was not deployed, as it depends on element "
  +:+ causingNode +:+ " which failed to deploy".

(** The callback of [error.handlerErrors.forEach]. *)
Definition convertNodeError (plan : Plan) (acc : RunState * list DeployError)
    (entry : string * NodeError) : RunState * list DeployError :=
  let item := getItem plan entry.1 in
  match entry.2 with
  | NodeSkippedError causingNode =>
      (reportProgress item StatusCancelled
         (Some (groupKey (getItem plan causingNode))) acc.1,
       acc.2 ++ [mkDeployError (inl (groupKey item)) (skipMessage entry.1 causingNode)])
  | HandlerError nodeError =>
      (acc.1, acc.2 ++ [mkDeployError (inl (groupKey item)) (message nodeError)])
  end.

(** The callback of [causingNodeIds.forEach]. *)
Definition convertCircular (plan : Plan) (err : CircularDependencyError)
    (acc : RunState * list DeployError) (id : string) : RunState * list DeployError :=
  let item := getItem plan id in
  (reportProgress item StatusError (Some (circularMessage err)) acc.1,
   acc.2 ++ [mkDeployError (inl (groupKey item)) (circularMessage err)]).

Definition convertWalkError (plan : Plan) (e : WalkError) (st : RunState)
    : RunState * list DeployError :=
  let acc := foldl (convertNodeError plan) (st, []) (handlerErrors e) in
  match circularDependencyError e with
  | Some err => foldl (convertCircular plan err) acc (causingNodeIds err)
  | None => acc
  end.

(** The outer [catch] block up to the [return]. *)
Definition convertThrown (plan : Plan) (thrown : Thrown) (st : RunState)
    : RunState * list DeployError :=
  match thrown with
  | ThrownWalkError e => convertWalkError plan e st
  | ThrownOther _ => (st, [])
  end.

Definition resultOf (deployErrors : list DeployError) (st : RunState)
    : DeployActionResult :=
  mkDeployActionResult deployErrors (rsAppliedChanges st)
    (mkExtra (Some (rsDeploymentUrls st))).

(** [deployActions]; the progress sink is the trace of the run state.  The
    promise it returns settles to [inr] a result or [inl] a rejection. *)
Definition deployActions (deployPlan : Plan) (adapters : gmap string AdapterOperations)
    (postDeployAction : PostDeployHook) (checkOnly : bool) (σ : Store)
    : RunState * (Error + DeployActionResult) :=
  let handler := nodeHandler (getItem deployPlan) adapters postDeployAction checkOnly in
  match walkAsync deployPlan handler (mkRunState [] [] σ []) with
  | (st, None) => (st, inr (resultOf [] st))
  | (st, Some thrown) =>
      let caught := convertThrown deployPlan thrown st in
      (caught.1, inr (resultOf caught.2 caught.1))
  end.

(** ** A sequential walker *)

(** Modelled from the spec: the dag walker is missing.  This one runs the
    handlers one after the other: a node is ready once every node it depends
    on has succeeded, failed or been skipped; a ready node with a failed or
    skipped dependency is skipped, its handler is not invoked, and it is
    tagged with the node whose handler failed: that dependency, or the node
    that the dependency was skipped for.  Of the nodes that never get ready,
    those that depend on themselves are the ones on a cycle. *)
Definition dependencies (edges : list (string * string)) (n : string) : list string :=
  (filter (λ e, e.1 = n) edges).*2.

Definition isReady (edges : list (string * string)) (succeeded : list string)
    (failures : list (string * NodeError)) (n : string) : Prop :=
  Forall (λ d, d ∈ succeeded ∨ d ∈ failures.*1) (dependencies edges n).

Global Instance isReady_dec edges succeeded failures n :
  Decision (isReady edges succeeded failures n).
Proof. unfold isReady. apply _. Defined.

Definition circularText (ids : list string) : string :=
  "Circular dependencies exist among these items: " +:+ String.concat ", " ids.

(** Whether [target] is among [from] or can be reached from there along at
    most [fuel] edges. *)
Fixpoint reachable (fuel : nat) (edges : list (string * string)) (from : list string)
    (target : string) : bool :=
  match fuel with
  | O => false
  | S fuel' =>
      existsb (λ d, bool_decide (d = target)
                    || reachable fuel' edges (dependencies edges d) target) from
  end.

Definition onCycle (edges : list (string * string)) (pending : list string)
    (n : string) : bool :=
  reachable (length pending) edges (dependencies edges n) n.

(** The node whose failure a skip for dependency [d] goes back to. *)
Definition causeOf (failures : list (string * NodeError)) (d : string) : string :=
  match (list_to_map failures : gmap string NodeError) !! d with
  | Some (NodeSkippedError causingNode) => causingNode
  | _ => d
  end.

Definition finishWalk (edges : list (string * string)) (pending : list string)
    (failures : list (string * NodeError)) (st : RunState) : RunState * option Thrown :=
  let circular :=
    match filter (λ n, onCycle edges pending n = true) pending with
    | [] => None
    | id :: ids => Some (mkCircular (id :: ids) (circularText (id :: ids)))
    end in
  match failures, circular with
  | [], None => (st, None)
  | _, _ => (st, Some (ThrownWalkError (mkWalkError failures circular)))
  end.

Fixpoint walkNodes (fuel : nat) (edges : list (string * string)) (handler : Handler)
    (pending succeeded : list string) (failures : list (string * NodeError))
    (st : RunState) : RunState * option Thrown :=
  match fuel with
  | O => finishWalk edges pending failures st
  | S fuel' =>
      match head (filter (isReady edges succeeded failures) pending) with
      | None => finishWalk edges pending failures st
      | Some n =>
          let pending' := filter (λ m, m ≠ n) pending in
          match head (filter (λ d, d ∈ failures.*1) (dependencies edges n)) with
          | Some d =>
              walkNodes fuel' edges handler pending' succeeded
                (failures ++ [(n, NodeSkippedError (causeOf failures d))]) st
          | None =>
              match handler n st with
              | (st', None) =>
                  walkNodes fuel' edges handler pending' (succeeded ++ [n]) failures st'
              | (st', Some e) =>
                  walkNodes fuel' edges handler pending' succeeded
                    (failures ++ [(n, HandlerError e)]) st'
              end
          end
      end
  end.

(** A plan given by its items and its "depends on" edges. *)
Definition planOf (planItems : list (string * PlanItem)) (edges : list (string * string))
    : Plan :=
  mkPlan
    (λ id, default (mkPlanItem "" []) ((list_to_map planItems : gmap string PlanItem) !! id))
    (λ handler st, walkNodes (length planItems) edges handler planItems.*1 [] [] st).

(** ** Statements used by the theorems *)

Definition dcField (c : DetailedChange) : string :=
  match c with
  | DAdd k _ => k
  | DRemove k _ => k
  | DModify k _ _ => k
  end.

(** A detailed change agrees with [target] when applying it makes its field
    the same as in [target]. *)
Definition agreesWith (target : Fields) (c : DetailedChange) : Prop :=
  match c with
  | DAdd k v => target !! k = Some v
  | DRemove k _ => target !! k = None
  | DModify k _ v => target !! k = Some v
  end.

(** The reading of the live-propagation sentence that quantifies over every
    applied change and every plan element of the same full name. *)
Definition patchesEveryMatch (item : PlanItem) (applied : list Change) (σ : Store) : Prop :=
  ∀ c planElement,
    c ∈ applied → isAdditionOrModificationChange c = true →
    planElement ∈ planElements item →
    fullNameOf planElement = fullNameOf (getChangeData c) →
    updatePlanElement item applied σ !!! obj planElement
    = updatePlanElement item applied σ !!! obj (getChangeData c).

(** One object has one identifier: elements that share an object share their
    full name. *)
Definition sameObjectSameName (es : list Element) : Prop :=
  ∀ e1 e2, e1 ∈ es → e2 ∈ es → obj e1 = obj e2 → fullNameOf e1 = fullNameOf e2.

Definition updatedElements (applied : list Change) : list Element :=
  getChangeData <$> filter (λ c, isAdditionOrModificationChange c = true) applied.

Definition isFinishedReport (ev : Event) : Prop :=
  match ev with
  | ReportProgress _ StatusFinished _ => True
  | _ => False
  end.

Definition isAdapterCall (ev : Event) : Prop :=
  match ev with
  | AdapterDeploy _ _ | AdapterValidate _ _ => True
  | _ => False
  end.

Definition urlsOf (result : DeployResult) : list string :=
  default [] (extraProperties result ≫= deploymentUrls).

(** The one [DeployError] the outer [catch] makes of an entry of
    [handlerErrors]. *)
Definition nodeDeployError (plan : Plan) (entry : string * NodeError) : DeployError :=
  mkDeployError (inl (groupKey (getItem plan entry.1)))
    match entry.2 with
    | NodeSkippedError causingNode => skipMessage entry.1 causingNode
    | HandlerError nodeError => message nodeError
    end.

Definition nodeCancelEvents (plan : Plan) (entry : string * NodeError) : list Event :=
  match entry.2 with
  | NodeSkippedError causingNode =>
      [ReportProgress (getItem plan entry.1) StatusCancelled
         (Some (groupKey (getItem plan causingNode)))]
  | HandlerError _ => []
  end.

Definition emitAll (evs : list Event) (st : RunState) : RunState :=
  mkRunState (rsAppliedChanges st) (rsDeploymentUrls st) (rsStore st) (rsTrace st ++ evs).

Definition circularErrors (plan : Plan) (e : WalkError) : list DeployError :=
  match circularDependencyError e with
  | Some err =>
      (λ id, mkDeployError (inl (groupKey (getItem plan id))) (circularMessage err))
        <$> causingNodeIds err
  | None => []
  end.

Definition circularEvents (plan : Plan) (e : WalkError) : list Event :=
  match circularDependencyError e with
  | Some err =>
      (λ id, ReportProgress (getItem plan id) StatusError (Some (circularMessage err)))
        <$> causingNodeIds err
  | None => []
  end.

(** ** Sample data *)

Definition idX : ElemID := mkElemID "salto" ["obj"; "instance"; "x"].
Definition idY : ElemID := mkElemID "salto" ["obj"; "instance"; "y"].

Definition planX : Element := mkElement idX 1.
Definition planX' : Element := mkElement idX 2.
Definition planY : Element := mkElement idY 3.
Definition liveX : Element := mkElement idX 4.
Definition liveX' : Element := mkElement idX 5.

Definition store0 : Store :=
  {[ 1%nat := {[ "label" := VPrim "x" ]};
     2%nat := {[ "label" := VPrim "old x" ]};
     3%nat := {[ "label" := VPrim "y"; "parent" := VRef "salto.obj.instance.x.id" "" ]};
     4%nat := {[ "label" := VPrim "x"; "id" := VPrim "41" ]};
     5%nat := {[ "label" := VPrim "x"; "id" := VPrim "42" ]} ]}.

Definition itemX : PlanItem := mkPlanItem "groupX" [("x/add", Addition planX)].
Definition itemY : PlanItem := mkPlanItem "groupY" [("y/add", Addition planY)].
Definition itemXX : PlanItem :=
  mkPlanItem "groupXX" [("x/remove", Removal planX); ("x/add", Addition planX')].
Definition itemEmpty : PlanItem := mkPlanItem "groupEmpty" [].

(** Commits the addition of x with the identifier the service assigned, and
    reports a problem with the rest of the group. *)
Definition partialResult : DeployResult :=
  mkDeployResult [Addition liveX] [mkError "Error" "quota exceeded"]
    (Some (mkExtra (Some ["https://service.example/deployments/7"]))).

Definition partialDeploy : AdapterOperation := λ opts σ, (σ, inr partialResult).

Definition echoDeploy : AdapterOperation :=
  λ opts σ, (σ, inr (mkDeployResult (groupChanges (changeGroup opts)) [] None)).

Definition partialAdapter : AdapterOperations := mkAdapter partialDeploy None.
Definition echoAdapter : AdapterOperations := mkAdapter echoDeploy (Some echoDeploy).

Definition noHook : PostDeployHook := λ _ σ, (σ, None).

Definition chainPlan : Plan := planOf [("x", itemX); ("y", itemY)] [("y", "x")].

Definition walkerBug : Error := mkError "RangeError" "Maximum call stack size exceeded".

(** A plan whose walk throws something that is not a [WalkError]. *)
Definition brokenPlan : Plan :=
  mkPlan (λ _, itemX) (λ _ st, (st, Some (ThrownOther walkerBug))).

Definition state0 : RunState := mkRunState [] [] store0 [].

Definition chainHandler : Handler :=
  nodeHandler (getItem chainPlan) {[ "salto" := partialAdapter ]} noHook false.

(** What the walk of [chainPlan] throws when the adapter reports errors for
    x: x has failed and y, which depends on x, is skipped. *)
Definition chainWalkError : WalkError :=
  mkWalkError
    [("x", HandlerError (newError (failureMessage false itemX partialResult)));
     ("y", NodeSkippedError "x")]
    None.

(** The run state after the handlers of the given nodes have run, one after
    the other, whatever their outcomes. *)
Definition runHandlers (handler : Handler) (ids : list string) (st : RunState)
    : RunState :=
  foldl (λ s id, (handler id s).1) st ids.

(** ** Statements used by the further properties *)

Definition isProgressReport (ev : Event) : Prop :=
  match ev with
  | ReportProgress _ _ _ => True
  | _ => False
  end.

Definition isPostDeployAction (ev : Event) : Prop :=
  match ev with
  | PostDeployAction _ => True
  | _ => False
  end.

(** The report that closes a run of the handler with the given outcome. *)
Definition terminalReport (item : PlanItem) (outcome : option Error) : Event :=
  match outcome with
  | None => ReportProgress item StatusFinished None
  | Some e => ReportProgress item StatusError (Some (message e))
  end.

(** The reports of the outer [catch]: cancelled or error, with details. *)
Definition isCatchReport (ev : Event) : Prop :=
  match ev with
  | ReportProgress _ StatusCancelled (Some _) => True
  | ReportProgress _ StatusError (Some _) => True
  | _ => False
  end.

(** The adapter call of a dispatch in the given mode. *)
Definition adapterCallOf (checkOnly : bool) (adapterName : string) (opts : DeployOptions)
    : Event :=
  if checkOnly then AdapterValidate adapterName opts else AdapterDeploy adapterName opts.

Definition optsOf (planItem : PlanItem) : DeployOptions :=
  mkDeployOptions (mkChangeGroup (groupKey planItem) (changes planItem)).

(** The last of the updated elements whose plan element, found by full name,
    is the object [a]. *)
Fixpoint lastMatch (byId : gmap string Element) (a : nat) (us : list Element)
    : option Element :=
  match us with
  | [] => None
  | u :: us' =>
      match lastMatch byId a us' with
      | Some u' => Some u'
      | None =>
          match byId !! fullNameOf u with
          | Some pe => if decide (obj pe = a) then Some u else None
          | None => None
          end
      end
  end.

Definition circularErrorOf (plan : Plan) (err : CircularDependencyError) (id : string)
    : DeployError :=
  mkDeployError (inl (groupKey (getItem plan id))) (circularMessage err).

Definition circularReportOf (plan : Plan) (err : CircularDependencyError) (id : string)
    : Event :=
  ReportProgress (getItem plan id) StatusError (Some (circularMessage err)).

(** The node identifiers a [WalkError] names as being on a cycle. *)
Definition circularIds (e : WalkError) : list string :=
  match circularDependencyError e with
  | Some err => causingNodeIds err
  | None => []
  end.

(** The number of nodes that a thrown value reports as not deployed. *)
Definition reportedFailures (thrown : option Thrown) : nat :=
  match thrown with
  | Some (ThrownWalkError e) => length (handlerErrors e) + length (circularIds e)
  | Some (ThrownOther _) => 0
  | None => 0
  end.

(** ** Further sample data *)

Definition lockedHook : PostDeployHook :=
  λ _ σ, (σ, Some (mkError "Error" "state file is locked")).

Definition cyclePlan : Plan :=
  planOf [("x", itemX); ("y", itemY)] [("y", "x"); ("x", "y")].

Definition cycleHandler : Handler :=
  nodeHandler (getItem cyclePlan) {[ "salto" := echoAdapter ]} noHook false.

Definition cycleError : CircularDependencyError :=
  mkCircular ["x"; "y"] (circularText ["x"; "y"]).

Definition idZ : ElemID := mkElemID "salto" ["obj"; "instance"; "z"].
Definition planZ : Element := mkElement idZ 6.
Definition itemZ : PlanItem := mkPlanItem "groupZ" [("z/add", Addition planZ)].

(** z depends on y, which depends on x. *)
Definition chain3Plan : Plan :=
  planOf [("x", itemX); ("y", itemY); ("z", itemZ)] [("y", "x"); ("z", "y")].

(** x and y depend on each other, z depends on x. *)
Definition cycleTailPlan : Plan :=
  planOf [("x", itemX); ("y", itemY); ("z", itemZ)] [("y", "x"); ("x", "y"); ("z", "x")].

Definition itemXY : PlanItem :=
  mkPlanItem "groupXY" [("x/add", Addition planX); ("y/add", Addition planY)].

(** * Theorems *)

(** ** The patch restores the compared value *)

Lemma applyDetailedChanges_lookup (target : Fields) (cs : list DetailedChange) :
  Forall (agreesWith target) cs →
  ∀ (m : Fields) (i : string),
    applyDetailedChanges m cs !! i
    = if decide (i ∈ dcField <$> cs) then target !! i else m !! i.
Proof.
  unfold applyDetailedChanges.
  induction 1 as [|c cs Hc _ IH]; intros m i.
  - done.
  - cbn [foldl]. rewrite IH, fmap_cons. destruct (decide (i ∈ dcField <$> cs)) as [Hin|Hout].
    + rewrite decide_True; [done | by apply elem_of_cons; right].
    + destruct (decide (i = dcField c)) as [->|Hne].
      * rewrite decide_True; [|by apply elem_of_cons; left].
        destruct c; simpl in *;
          rewrite ?lookup_insert_eq, ?lookup_delete_eq; by rewrite Hc.
      * rewrite decide_False; [|by intros [?|?]%elem_of_cons].
        destruct c; simpl in *;
          rewrite ?lookup_insert_ne, ?lookup_delete_ne; done.
Qed.

Lemma detailedCompare_agrees (before after : Fields) :
  Forall (agreesWith after) (detailedCompare before after).
Proof.
  apply Forall_app; split; apply Forall_forall; intros c Hc;
    apply list_elem_of_omap in Hc as ([k v] & Hkv & Hf);
    apply elem_of_map_to_list in Hkv; simpl in Hf.
  - destruct (after !! k) eqn:Ha; simplify_eq. done.
  - destruct (before !! k) as [w|]; [case_decide|]; simplify_eq; done.
Qed.

Lemma detailedCompare_covers (before after : Fields) (i : string) :
  before !! i ≠ after !! i → i ∈ dcField <$> detailedCompare before after.
Proof.
  intros Hne. unfold detailedCompare. rewrite fmap_app, elem_of_app.
  destruct (after !! i) as [v|] eqn:Ha.
  - right. apply list_elem_of_fmap.
    destruct (before !! i) as [w|] eqn:Hb.
    + exists (DModify i w v). split; [done|].
      apply list_elem_of_omap. exists (i, v). split.
      * by apply elem_of_map_to_list.
      * simpl. rewrite Hb. rewrite decide_False; [done | congruence].
    + exists (DAdd i v). split; [done|].
      apply list_elem_of_omap. exists (i, v). split.
      * by apply elem_of_map_to_list.
      * simpl. by rewrite Hb.
  - left. apply list_elem_of_fmap.
    destruct (before !! i) as [w|] eqn:Hb; [|done].
    exists (DRemove i w). split; [done|].
    apply list_elem_of_omap. exists (i, w). split.
    + by apply elem_of_map_to_list.
    + simpl. by rewrite Ha.
Qed.

Lemma applyDetailedChanges_detailedCompare (before after : Fields) :
  applyDetailedChanges before (detailedCompare before after) = after.
Proof.
  apply map_eq. intros i.
  rewrite (applyDetailedChanges_lookup after); [|apply detailedCompare_agrees].
  case_decide as Hin; [done|].
  destruct (decide (before !! i = after !! i)) as [|Hne]; [done|].
  by apply detailedCompare_covers in Hne.
Qed.

Lemma patchElement_insert (σ : Store) (planElement updatedElement : Element) :
  patchElement σ planElement updatedElement
  = <[obj planElement := σ !!! obj updatedElement]> σ.
Proof. unfold patchElement. by rewrite applyDetailedChanges_detailedCompare. Qed.

(** ** keyBy keeps the last element of each key *)

Section keyBy.
Context {A : Type} (f : A → string).

Lemma foldl_keyBy_other (l : list A) (m : gmap string A) (k : string) :
  (∀ y, y ∈ l → f y ≠ k) →
  foldl (λ m x, <[f x := x]> m) m l !! k = m !! k.
Proof.
  revert m. induction l as [|x l IH]; intros m Hl; [done|].
  cbn [foldl]. rewrite IH.
  - apply lookup_insert_ne, Hl, elem_of_cons. by left.
  - intros y Hy. apply Hl, elem_of_cons. by right.
Qed.

Lemma foldl_keyBy_Some (l : list A) (m : gmap string A) (k : string) (x : A) :
  foldl (λ m x, <[f x := x]> m) m l !! k = Some x →
  m !! k = Some x ∨ (f x = k ∧ x ∈ l).
Proof.
  revert m. induction l as [|y l IH]; intros m H; [by left|].
  cbn [foldl] in H. apply IH in H as [H|[Hk Hin]].
  - destruct (decide (f y = k)) as [<-|Hne].
    + rewrite lookup_insert_eq in H. injection H as ->.
      right. split; [done|]. apply elem_of_cons. by left.
    + rewrite lookup_insert_ne in H by done. by left.
  - right. split; [done|]. apply elem_of_cons. by right.
Qed.

Lemma keyBy_Some (l : list A) (k : string) (x : A) :
  keyBy f l !! k = Some x → f x = k ∧ x ∈ l.
Proof.
  intros H. apply foldl_keyBy_Some in H as [H|H]; [|done].
  by rewrite lookup_empty in H.
Qed.

Lemma keyBy_None (l : list A) (k : string) :
  (∀ y, y ∈ l → f y ≠ k) → keyBy f l !! k = None.
Proof.
  intros H. unfold keyBy. rewrite foldl_keyBy_other by done. apply lookup_empty.
Qed.

Lemma keyBy_last (l1 : list A) (x : A) (l2 : list A) :
  (∀ y, y ∈ l2 → f y ≠ f x) → keyBy f (l1 ++ x :: l2) !! f x = Some x.
Proof.
  intros H. unfold keyBy. rewrite foldl_app. cbn [foldl].
  rewrite foldl_keyBy_other by done. apply lookup_insert_eq.
Qed.
End keyBy.

(** ** The frame of the patch loop *)

Lemma foldl_patchStep_frame (byId : gmap string Element) (us : list Element)
    (σ : Store) (a : nat) :
  (∀ u pe, u ∈ us → byId !! fullNameOf u = Some pe → obj pe ≠ a) →
  foldl (patchStep byId) σ us !! a = σ !! a.
Proof.
  revert σ. induction us as [|u us IH]; intros σ H; [done|].
  cbn [foldl]. rewrite IH.
  - unfold patchStep. destruct (byId !! fullNameOf u) as [pe|] eqn:E; [|done].
    rewrite patchElement_insert. apply lookup_insert_ne.
    eapply H; [|done]. apply elem_of_cons. by left.
  - intros u' pe Hu'. apply H, elem_of_cons. by right.
Qed.

Lemma patchStep_unmatched (byId : gmap string Element) (σ : Store) (u : Element) :
  byId !! fullNameOf u = None → patchStep byId σ u = σ.
Proof. intros H. unfold patchStep. by rewrite H. Qed.

Lemma patchStep_matched (byId : gmap string Element) (σ : Store) (u pe : Element) :
  byId !! fullNameOf u = Some pe →
  patchStep byId σ u = <[obj pe := σ !!! obj u]> σ.
Proof. intros H. unfold patchStep. rewrite H. apply patchElement_insert. Qed.

Lemma updatedElements_cons_true (c : Change) (l : list Change) :
  isAdditionOrModificationChange c = true →
  updatedElements (c :: l) = getChangeData c :: updatedElements l.
Proof.
  intros Hc. unfold updatedElements. rewrite filter_cons.
  by rewrite decide_True by done.
Qed.

Lemma updatedElements_cons_false (c : Change) (l : list Change) :
  isAdditionOrModificationChange c = false →
  updatedElements (c :: l) = updatedElements l.
Proof.
  intros Hc. unfold updatedElements. rewrite filter_cons.
  by rewrite decide_False by congruence.
Qed.

Lemma updatedElements_app (l1 l2 : list Change) :
  updatedElements (l1 ++ l2) = updatedElements l1 ++ updatedElements l2.
Proof. unfold updatedElements. by rewrite filter_app, fmap_app. Qed.

Lemma elem_of_updatedElements (u : Element) (l : list Change) :
  u ∈ updatedElements l ↔
  ∃ c, c ∈ l ∧ isAdditionOrModificationChange c = true ∧ u = getChangeData c.
Proof.
  unfold updatedElements. rewrite list_elem_of_fmap. split.
  - intros (c & -> & Hc). apply list_elem_of_filter in Hc as [? ?]. eauto.
  - intros (c & ? & ? & ->). exists c. split; [done|].
    by apply list_elem_of_filter.
Qed.

(** ** updatePlanElement *)

(** C9: with an empty list of applied changes, [updatePlanElement] leaves the
    store of element objects, hence every element of the plan item, as it
    was. *)
Theorem updatePlanElement_empty (item : PlanItem) (σ : Store) :
  updatePlanElement item [] σ = σ.
Proof. reflexivity. Qed.

(** C10: [updatePlanElement] changes an object only if it is a plan element
    of the item whose full name is that of an addition or modification among
    the applied changes; an applied removal has no effect, nor has an applied
    change whose full name is that of no element of the item, and neither
    makes the update fail. *)
Theorem updatePlanElement_frame (item : PlanItem) (σ : Store) :
  (∀ (applied : list Change) (a : nat),
      (∀ planElement c,
          planElement ∈ planElements item → c ∈ applied →
          isAdditionOrModificationChange c = true →
          fullNameOf (getChangeData c) = fullNameOf planElement →
          obj planElement ≠ a) →
      updatePlanElement item applied σ !! a = σ !! a)
  ∧ (∀ (l1 : list Change) (c : Change) (l2 : list Change),
      isAdditionOrModificationChange c = false →
      updatePlanElement item (l1 ++ c :: l2) σ = updatePlanElement item (l1 ++ l2) σ)
  ∧ (∀ (l1 : list Change) (c : Change) (l2 : list Change),
      (∀ planElement, planElement ∈ planElements item →
                      fullNameOf planElement ≠ fullNameOf (getChangeData c)) →
      updatePlanElement item (l1 ++ c :: l2) σ = updatePlanElement item (l1 ++ l2) σ).
Proof.
  split; [|split].
  - intros applied a H. apply foldl_patchStep_frame. intros u pe Hu Hpe.
    apply (elem_of_updatedElements u applied) in Hu as (c & Hc & Hkind & ->).
    apply keyBy_Some in Hpe as [Hname Hin]. by eapply H.
  - intros l1 c l2 Hc. unfold updatePlanElement.
    change (foldl ?s σ (getChangeData <$> filter ?P ?l)) with (foldl s σ (updatedElements l)).
    by rewrite !updatedElements_app, updatedElements_cons_false.
  - intros l1 c l2 Hnone. unfold updatePlanElement.
    change (foldl ?s σ (getChangeData <$> filter ?P ?l)) with (foldl s σ (updatedElements l)).
    destruct (isAdditionOrModificationChange c) eqn:Hc.
    + rewrite !updatedElements_app, updatedElements_cons_true by done.
      rewrite !foldl_app. cbn [foldl].
      by rewrite patchStep_unmatched by (by apply keyBy_None).
    + by rewrite !updatedElements_app, updatedElements_cons_false.
Qed.

(** C2, as the code has it: the addition or modification that is the last of
    its full name among the applied changes is patched onto the plan element
    that is the last of that full name in the item; afterwards the two hold
    the same fields, and these are the fields the adapter handed over whenever
    the adapter's element is not itself an object of the item.  An earlier
    plan element of the same full name, when it is another object, is not
    patched: its object is as it was. *)
Theorem updatePlanElement_patches_last (item : PlanItem) (σ : Store)
    (l1 : list Change) (c : Change) (l2 : list Change)
    (es1 : list Element) (planElement : Element) (es2 : list Element) :
  sameObjectSameName (planElements item ++ updatedElements (l1 ++ c :: l2)) →
  isAdditionOrModificationChange c = true →
  (∀ c', c' ∈ l2 → isAdditionOrModificationChange c' = true →
         fullNameOf (getChangeData c') ≠ fullNameOf (getChangeData c)) →
  planElements item = es1 ++ planElement :: es2 →
  (∀ e, e ∈ es2 → fullNameOf e ≠ fullNameOf planElement) →
  fullNameOf planElement = fullNameOf (getChangeData c) →
  updatePlanElement item (l1 ++ c :: l2) σ !!! obj planElement
  = updatePlanElement item (l1 ++ c :: l2) σ !!! obj (getChangeData c)
  ∧ (obj (getChangeData c) ∉ obj <$> planElements item →
     updatePlanElement item (l1 ++ c :: l2) σ !!! obj planElement
     = σ !!! obj (getChangeData c))
  ∧ (∀ e, e ∈ es1 → fullNameOf e = fullNameOf planElement →
          obj e ≠ obj planElement →
          updatePlanElement item (l1 ++ c :: l2) σ !! obj e = σ !! obj e).
Proof.
  intros Hwf Hc Hlast Hplan Hes2 Hname.
  assert (Hpe : planElement ∈ planElements item).
  { rewrite Hplan. apply elem_of_app. right. apply elem_of_cons. by left. }
  assert (Hearlier : ∀ e, e ∈ es1 → fullNameOf e = fullNameOf planElement →
            obj e ≠ obj planElement →
            updatePlanElement item (l1 ++ c :: l2) σ !! obj e = σ !! obj e).
  { intros e He Hn Hobj. unfold updatePlanElement.
    apply foldl_patchStep_frame. intros u pe' _ Hpe' Heq.
    assert (Hlastpe : keyBy fullNameOf (planElements item) !! fullNameOf planElement
                      = Some planElement).
    { rewrite Hplan. by apply keyBy_last. }
    pose proof (keyBy_Some _ _ _ _ Hpe') as [Hn' Hin'].
    assert (Hsame : fullNameOf pe' = fullNameOf e).
    { apply Hwf; [| |done]; apply elem_of_app; left; [done|].
      rewrite Hplan. apply elem_of_app. by left. }
    rewrite <- Hn', Hsame, Hn, Hlastpe in Hpe'. injection Hpe' as <-.
    by apply Hobj. }
  cut (updatePlanElement item (l1 ++ c :: l2) σ !!! obj planElement
       = updatePlanElement item (l1 ++ c :: l2) σ !!! obj (getChangeData c)
       ∧ (obj (getChangeData c) ∉ obj <$> planElements item →
          updatePlanElement item (l1 ++ c :: l2) σ !!! obj planElement
          = σ !!! obj (getChangeData c))).
  { intros [H1 H2]. by repeat split. }
  clear Hearlier.
  assert (Hu : getChangeData c ∈ updatedElements (l1 ++ c :: l2)).
  { apply elem_of_updatedElements. exists c. split; [|done].
    apply elem_of_app. right. apply elem_of_cons. by left. }
  unfold updatePlanElement.
  change (foldl ?s σ (getChangeData <$> filter ?P ?l)) with (foldl s σ (updatedElements l)).
  rewrite updatedElements_app, updatedElements_cons_true by done.
  rewrite foldl_app. cbn [foldl].
  set (byId := keyBy fullNameOf (planElements item)).
  set (u := getChangeData c) in *.
  assert (HbyId : byId !! fullNameOf u = Some planElement).
  { unfold byId. rewrite Hplan, <- Hname. by apply keyBy_last. }
  rewrite (patchStep_matched _ _ _ _ HbyId).
  set (σ1 := foldl (patchStep byId) σ (updatedElements l1)).
  assert (Hrest : ∀ a, a = obj planElement ∨ a = obj u →
            foldl (patchStep byId) (<[obj planElement := σ1 !!! obj u]> σ1)
              (updatedElements l2) !! a
            = <[obj planElement := σ1 !!! obj u]> σ1 !! a).
  { intros a Ha. apply foldl_patchStep_frame. intros u' pe' Hu' Hpe' Heq.
    apply keyBy_Some in Hpe' as [Hn' Hin'].
    apply elem_of_updatedElements in Hu' as (c' & Hc'in & Hc'kind & ->).
    apply (Hlast c' Hc'in Hc'kind). rewrite <- Hn'.
    destruct Ha as [->| ->].
    - rewrite <- Hname. apply Hwf; [| |done]; apply elem_of_app; by left.
    - apply Hwf; [| |done]; apply elem_of_app; [by left|by right]. }
  rewrite !lookup_total_alt, !Hrest by auto. rewrite lookup_insert_eq. split.
  - destruct (decide (obj planElement = obj u)) as [Heq|Hne].
    + by rewrite <- Heq, lookup_insert_eq.
    + rewrite lookup_insert_ne by done. cbn. by rewrite lookup_total_alt.
  - intros Hfresh. cbn. rewrite lookup_total_alt. unfold σ1.
    rewrite foldl_patchStep_frame; [done|]. intros u' pe' _ Hpe' Heq.
    apply Hfresh. apply keyBy_Some in Hpe' as [_ Hin'].
    rewrite <- Heq. by apply list_elem_of_fmap_2.
Qed.

Lemma updatePlanElement_patches_last_witness :
  updatePlanElement itemXX [Addition liveX; Addition liveX'] store0 !!! obj planX'
  = updatePlanElement itemXX [Addition liveX; Addition liveX'] store0 !!! obj liveX'
  ∧ updatePlanElement itemXX [Addition liveX; Addition liveX'] store0 !!! obj planX'
    = store0 !!! obj liveX'
  ∧ updatePlanElement itemXX [Addition liveX; Addition liveX'] store0 !! obj planX
    = store0 !! obj planX.
Proof.
  destruct (updatePlanElement_patches_last itemXX store0
              [Addition liveX] (Addition liveX') [] [planX] planX' [])
    as (Hsame & Hfresh & Hearlier).
  - assert (Hall : Forall (λ e, fullNameOf e = "salto.obj.instance.x")
                      (planElements itemXX
                       ++ updatedElements ([Addition liveX] ++ [Addition liveX']))).
    { vm_compute. repeat constructor. }
    intros e1 e2 H1 H2 _. rewrite Forall_forall in Hall.
    by rewrite (Hall e1 H1), (Hall e2 H2).
  - reflexivity.
  - intros c' Hc'. by apply elem_of_nil in Hc'.
  - reflexivity.
  - intros e He. by apply elem_of_nil in He.
  - reflexivity.
  - split; [exact Hsame|]. split.
    + apply Hfresh. vm_compute. intros H.
      repeat (apply elem_of_cons in H as [H|H]; [discriminate H|]).
      by apply elem_of_nil in H.
    + apply Hearlier; [|reflexivity|discriminate].
      apply list_elem_of_singleton. reflexivity.
Defined.

(** C2, as the sentence reads: it fails on an item that holds two changes of
    one full name when the adapter reports two additions of that name: the
    second plan element ends up with the fields of the second addition, not of
    the first. *)
Lemma patchesEveryMatch_fails :
  ¬ patchesEveryMatch itemXX [Addition liveX; Addition liveX'] store0.
Proof.
  intros H. specialize (H (Addition liveX) planX').
  assert (Heq : updatePlanElement itemXX [Addition liveX; Addition liveX'] store0
                  !!! obj planX'
                = updatePlanElement itemXX [Addition liveX; Addition liveX'] store0
                  !!! obj (getChangeData (Addition liveX))).
  { apply H; [|reflexivity| |reflexivity].
    - apply elem_of_cons. by left.
    - apply elem_of_cons. right. apply elem_of_cons. by left. }
  apply (f_equal (λ m : gmap string Value, m !! "id")) in Heq.
  vm_compute in Heq. discriminate Heq.
Qed.

Lemma updatePlanElement_frame_witness :
  updatePlanElement itemX [Addition liveX; Removal planY] store0 !! 3%nat
  = store0 !! 3%nat
  ∧ updatePlanElement itemX ([Addition liveX] ++ Removal planY :: []) store0
    = updatePlanElement itemX ([Addition liveX] ++ []) store0
  ∧ updatePlanElement itemX ([] ++ Addition planY :: [Addition liveX]) store0
    = updatePlanElement itemX ([] ++ [Addition liveX]) store0.
Proof.
  destruct (updatePlanElement_frame itemX store0) as (Hframe & Hremoval & Hunmatched).
  split; [|split].
  - apply Hframe. intros pe c Hpe _ _ _.
    apply list_elem_of_singleton in Hpe as ->. discriminate.
  - apply Hremoval. reflexivity.
  - apply Hunmatched. intros pe Hpe.
    apply list_elem_of_singleton in Hpe as ->. discriminate.
Defined.

(** ** Dispatch to the adapter *)

Lemma deployOrValidate_fulfilled (ad : AdapterOperations) (name : string)
    (opts : DeployOptions) (checkOnly : bool) (st st1 : RunState) (result : DeployResult) :
  deployOrValidate ad name opts checkOnly st = (st1, inr result) →
  rsAppliedChanges st1 = rsAppliedChanges st
  ∧ rsDeploymentUrls st1 = rsDeploymentUrls st
  ∧ ∃ call, isAdapterCall call ∧ rsTrace st1 = rsTrace st ++ [call].
Proof.
  unfold deployOrValidate, callAdapter.
  destruct checkOnly; simpl; [destruct (validate ad) as [v|]|];
    intros [= <- Hr]; simpl; repeat split; eauto.
  - by eexists (AdapterValidate _ _).
  - by eexists (AdapterDeploy _ _).
Qed.

Lemma deployAction_fulfilled (planItem : PlanItem) (adapters : gmap string AdapterOperations)
    (checkOnly : bool) (st st1 : RunState) (result : DeployResult) :
  deployAction planItem adapters checkOnly st = (st1, inr result) →
  rsAppliedChanges st1 = rsAppliedChanges st
  ∧ rsDeploymentUrls st1 = rsDeploymentUrls st
  ∧ ∃ call, isAdapterCall call ∧ rsTrace st1 = rsTrace st ++ [call].
Proof.
  unfold deployAction. destruct (changes planItem !! 0%nat) as [first|]; [|done].
  destruct (adapters !! adapter (elemID (getChangeData first))) as [ad|]; [|done].
  apply deployOrValidate_fulfilled.
Qed.

(** C5: for a plan item whose adapter is registered, a normal run calls the
    adapter's deploy and nothing else; a check-only run on an adapter without
    validate calls nothing and fails with the capability error; a check-only
    run on an adapter with validate calls validate and nothing else. *)
Theorem deployAction_checkOnly_gate (planItem : PlanItem)
    (adapters : gmap string AdapterOperations) (st : RunState)
    (first : Change) (ad : AdapterOperations) :
  changes planItem !! 0%nat = Some first →
  adapters !! adapter (elemID (getChangeData first)) = Some ad →
  let name := adapter (elemID (getChangeData first)) in
  let opts := mkDeployOptions (mkChangeGroup (groupKey planItem) (changes planItem)) in
  (rsTrace (deployAction planItem adapters false st).1
     = rsTrace st ++ [AdapterDeploy name opts]
   ∧ (deployAction planItem adapters false st).2 = (deploy ad opts (rsStore st)).2)
  ∧ (validate ad = None →
     deployAction planItem adapters true st
     = (st, inl (newError ("Check-Only deployment is not supported in adapter " +:+ name))))
  ∧ (∀ validateOp, validate ad = Some validateOp →
     rsTrace (deployAction planItem adapters true st).1
       = rsTrace st ++ [AdapterValidate name opts]
     ∧ (deployAction planItem adapters true st).2 = (validateOp opts (rsStore st)).2).
Proof.
  intros Hfirst Had name opts. subst name opts.
  unfold deployAction. rewrite Hfirst, Had. unfold deployOrValidate. simpl.
  split; [done|]. split.
  - by intros ->.
  - by intros validateOp ->.
Qed.

Lemma deployAction_checkOnly_gate_witness :
  (rsTrace (deployAction itemX {[ "salto" := echoAdapter ]} false state0).1
     = [AdapterDeploy "salto" (mkDeployOptions (mkChangeGroup "groupX" (changes itemX)))]
   ∧ (deployAction itemX {[ "salto" := echoAdapter ]} false state0).2
     = inr (mkDeployResult (changes itemX) [] None))
  ∧ deployAction itemX {[ "salto" := partialAdapter ]} true state0
    = (state0, inl (newError "Check-Only deployment is not supported in adapter salto"))
  ∧ (rsTrace (deployAction itemX {[ "salto" := echoAdapter ]} true state0).1
       = [AdapterValidate "salto" (mkDeployOptions (mkChangeGroup "groupX" (changes itemX)))]
     ∧ (deployAction itemX {[ "salto" := echoAdapter ]} true state0).2
       = inr (mkDeployResult (changes itemX) [] None)).
Proof.
  split; [|split].
  - apply (deployAction_checkOnly_gate itemX {[ "salto" := echoAdapter ]} state0
             (Addition planX) echoAdapter); reflexivity.
  - apply (deployAction_checkOnly_gate itemX {[ "salto" := partialAdapter ]} state0
             (Addition planX) partialAdapter); reflexivity.
  - apply (deployAction_checkOnly_gate itemX {[ "salto" := echoAdapter ]} state0
             (Addition planX) echoAdapter) with (validateOp := echoDeploy); reflexivity.
Defined.

(** C8: [deployAction] takes the adapter name from the first change with no
    guard: on an item without changes the read of [changes[0]] is out of
    bounds and the call fails with the resulting [TypeError], whatever the
    adapters; on an item with a first change the name is that change's
    adapter and the call goes on to the lookup and the dispatch. *)
Theorem deployAction_first_change (planItem : PlanItem)
    (adapters : gmap string AdapterOperations) (checkOnly : bool) (st : RunState) :
  (changes planItem = [] →
   deployAction planItem adapters checkOnly st = (st, inl undefinedChangeError))
  ∧ (∀ first rest, changes planItem = first :: rest →
     let name := adapter (elemID (getChangeData first)) in
     deployAction planItem adapters checkOnly st
     = match adapters !! name with
       | None => (st, inl (newError ("Missing adapter for " +:+ name)))
       | Some ad =>
           deployOrValidate ad name
             (mkDeployOptions (mkChangeGroup (groupKey planItem) (first :: rest)))
             checkOnly st
       end).
Proof.
  unfold deployAction. split.
  - by intros ->.
  - by intros first rest ->.
Qed.

Lemma deployAction_first_change_witness :
  deployAction itemEmpty {[ "salto" := echoAdapter ]} false state0
  = (state0, inl undefinedChangeError)
  ∧ deployAction itemX ∅ false state0
    = (state0, inl (newError "Missing adapter for salto")).
Proof.
  split.
  - apply (deployAction_first_change itemEmpty {[ "salto" := echoAdapter ]} false state0).
    reflexivity.
  - etransitivity.
    + apply (proj2 (deployAction_first_change itemX ∅ false state0) (Addition planX) []).
      reflexivity.
    + reflexivity.
Defined.

(** ** The per-node handler *)

Lemma recordUrls_applied (result : DeployResult) (st : RunState) :
  rsAppliedChanges (recordUrls result st) = rsAppliedChanges st.
Proof.
  unfold recordUrls. destruct (extraProperties result) as [[[urls|]]|]; done.
Qed.

Lemma recordUrls_urls (result : DeployResult) (st : RunState) :
  rsDeploymentUrls (recordUrls result st) = rsDeploymentUrls st ++ urlsOf result.
Proof.
  unfold recordUrls, urlsOf.
  destruct (extraProperties result) as [[[urls|]]|]; simpl; by rewrite ?app_nil_r.
Qed.

Lemma recordUrls_trace (result : DeployResult) (st : RunState) :
  rsTrace (recordUrls result st) = rsTrace st.
Proof.
  unfold recordUrls. destruct (extraProperties result) as [[[urls|]]|]; done.
Qed.

Lemma recordUrls_store (result : DeployResult) (st : RunState) :
  rsStore (recordUrls result st) = rsStore st.
Proof.
  unfold recordUrls. destruct (extraProperties result) as [[[urls|]]|]; done.
Qed.

Lemma adapterCall_not_finished (call : Event) :
  isAdapterCall call → ¬ isFinishedReport call.
Proof. destruct call; simpl; tauto. Qed.

(** The handler, once the dispatch has fulfilled: its lists, its trace and
    its outcome. *)
Lemma afterDispatch_spec (item : PlanItem) (hook : PostDeployHook) (checkOnly : bool)
    (result : DeployResult) (st : RunState) :
  let out := afterDispatch item hook checkOnly result st in
  let hooked := hook (appliedChanges result)
                  (updatePlanElement item (appliedChanges result) (rsStore st)) in
  rsAppliedChanges out.1 = rsAppliedChanges st ++ appliedChanges result
  ∧ rsDeploymentUrls out.1 = rsDeploymentUrls st ++ urlsOf result
  ∧ match hooked.2, errors result with
    | None, [] =>
        out.2 = None
        ∧ rsTrace out.1
          = rsTrace st ++ [PostDeployAction (appliedChanges result);
                           ReportProgress item StatusFinished None]
    | None, _ :: _ =>
        out.2 = Some (newError (failureMessage checkOnly item result))
        ∧ rsTrace out.1
          = rsTrace st ++ [PostDeployAction (appliedChanges result);
                           ReportProgress item StatusError
                             (Some (failureMessage checkOnly item result))]
    | Some e, _ =>
        out.2 = Some e
        ∧ rsTrace out.1
          = rsTrace st ++ [PostDeployAction (appliedChanges result);
                           ReportProgress item StatusError (Some (message e))]
    end.
Proof.
  intros out hooked. subst out hooked.
  unfold afterDispatch, callPostDeployAction. cbn [rsStore setStore].
  rewrite recordUrls_store. cbn [rsStore pushApplied].
  destruct (hook _ _) as [σh [e|]]; [|destruct (errors result)];
    cbn; rewrite ?recordUrls_applied, ?recordUrls_urls, ?recordUrls_trace;
    cbn; rewrite <- ?app_assoc; done.
Qed.

(** C1: when the dispatch of a plan item fulfils with a result that has
    errors, the handler ends in a failure and reports the item as failed,
    never as finished; by then the result's applied changes and deployment
    URLs are at the end of the run-wide lists. *)
Theorem nodeHandler_adapter_errors (itemOf : string → PlanItem)
    (adapters : gmap string AdapterOperations) (hook : PostDeployHook)
    (checkOnly : bool) (itemId : string) (st st1 : RunState) (result : DeployResult) :
  deployAction (itemOf itemId) adapters checkOnly
    (reportProgress (itemOf itemId) StatusStarted None st) = (st1, inr result) →
  errors result ≠ [] →
  ∃ err evs,
    (nodeHandler itemOf adapters hook checkOnly itemId st).2 = Some err
    ∧ err = default (newError (failureMessage checkOnly (itemOf itemId) result))
              (hook (appliedChanges result)
                 (updatePlanElement (itemOf itemId) (appliedChanges result)
                    (rsStore st1))).2
    ∧ rsTrace (nodeHandler itemOf adapters hook checkOnly itemId st).1
      = rsTrace st ++ evs
        ++ [ReportProgress (itemOf itemId) StatusError (Some (message err))]
    ∧ Forall (λ ev, ¬ isFinishedReport ev) evs
    ∧ rsAppliedChanges (nodeHandler itemOf adapters hook checkOnly itemId st).1
      = rsAppliedChanges st ++ appliedChanges result
    ∧ rsDeploymentUrls (nodeHandler itemOf adapters hook checkOnly itemId st).1
      = rsDeploymentUrls st ++ urlsOf result.
Proof.
  intros Hd Herr.
  destruct (deployAction_fulfilled _ _ _ _ _ _ Hd) as (Happ & Hurl & call & Hcall & Htr).
  unfold nodeHandler. rewrite Hd.
  destruct (afterDispatch_spec (itemOf itemId) hook checkOnly result st1)
    as (Ha & Hu & Hout).
  rewrite Ha, Hu, Happ, Hurl.
  set (evs := [ReportProgress (itemOf itemId) StatusStarted None; call;
               PostDeployAction (appliedChanges result)]).
  assert (Hevs : Forall (λ ev, ¬ isFinishedReport ev) evs).
  { repeat constructor; [by intros []|by apply adapterCall_not_finished|by intros []]. }
  destruct (hook _ _) as [σh [e|]]; cbn [snd] in Hout.
  - destruct Hout as [-> ->]. exists e, evs. repeat split; try done.
    rewrite Htr. cbn. by rewrite <- !app_assoc.
  - destruct (errors result) as [|e0 es]; [done|]. destruct Hout as [-> ->].
    eexists _, evs. repeat split; try done.
    rewrite Htr. cbn. by rewrite <- !app_assoc.
Qed.

Lemma nodeHandler_adapter_errors_witness :
  ∃ err evs,
    (nodeHandler (λ _, itemX) {[ "salto" := partialAdapter ]} noHook false "x" state0).2
    = Some err
    ∧ err = default (newError (failureMessage false itemX
                                 partialResult))
              (noHook [Addition liveX]
                 (updatePlanElement itemX [Addition liveX] store0)).2
    ∧ rsTrace (nodeHandler (λ _, itemX) {[ "salto" := partialAdapter ]} noHook false "x" state0).1
      = rsTrace state0 ++ evs
        ++ [ReportProgress itemX StatusError (Some (message err))]
    ∧ Forall (λ ev, ¬ isFinishedReport ev) evs
    ∧ rsAppliedChanges
        (nodeHandler (λ _, itemX) {[ "salto" := partialAdapter ]} noHook false "x" state0).1
      = rsAppliedChanges state0 ++ [Addition liveX]
    ∧ rsDeploymentUrls
        (nodeHandler (λ _, itemX) {[ "salto" := partialAdapter ]} noHook false "x" state0).1
      = rsDeploymentUrls state0 ++ ["https://service.example/deployments/7"].
Proof.
  apply (nodeHandler_adapter_errors (λ _, itemX) {[ "salto" := partialAdapter ]}
           noHook false "x" state0
           (mkRunState [] [] store0
              [ReportProgress itemX StatusStarted None;
               AdapterDeploy "salto" (mkDeployOptions (mkChangeGroup "groupX" (changes itemX)))])
           partialResult).
  - reflexivity.
  - discriminate.
Defined.



(** ** The outer catch of deployActions *)

Lemma emitAll_nil (st : RunState) : emitAll [] st = st.
Proof. destruct st. unfold emitAll. cbn. by rewrite app_nil_r. Qed.

Lemma emitAll_app (evs1 evs2 : list Event) (st : RunState) :
  emitAll evs2 (emitAll evs1 st) = emitAll (evs1 ++ evs2) st.
Proof. unfold emitAll. cbn. by rewrite app_assoc. Qed.

Lemma convertNodeError_step (plan : Plan) (st : RunState) (deployErrors : list DeployError)
    (entry : string * NodeError) :
  convertNodeError plan (st, deployErrors) entry
  = (emitAll (nodeCancelEvents plan entry) st,
     deployErrors ++ [nodeDeployError plan entry]).
Proof.
  destruct entry as [key [e|causingNode]];
    unfold convertNodeError, nodeCancelEvents, nodeDeployError; cbn.
  - by rewrite emitAll_nil.
  - done.
Qed.

Lemma foldl_convertNodeError (plan : Plan) (l : list (string * NodeError))
    (st : RunState) (deployErrors : list DeployError) :
  foldl (convertNodeError plan) (st, deployErrors) l
  = (emitAll (l ≫= nodeCancelEvents plan) st,
     deployErrors ++ (nodeDeployError plan <$> l)).
Proof.
  revert st deployErrors. induction l as [|entry l IH]; intros st deployErrors.
  - cbn. by rewrite emitAll_nil, app_nil_r.
  - cbn [foldl]. rewrite convertNodeError_step, IH, emitAll_app.
    by rewrite fmap_cons, bind_cons, <- app_assoc.
Qed.

Lemma foldl_convertCircular (plan : Plan) (err : CircularDependencyError)
    (ids : list string) (st : RunState) (deployErrors : list DeployError) :
  foldl (convertCircular plan err) (st, deployErrors) ids
  = (emitAll ((λ id, ReportProgress (getItem plan id) StatusError
                       (Some (circularMessage err))) <$> ids) st,
     deployErrors
     ++ ((λ id, mkDeployError (inl (groupKey (getItem plan id))) (circularMessage err))
           <$> ids)).
Proof.
  revert st deployErrors. induction ids as [|id ids IH]; intros st deployErrors.
  - cbn. by rewrite emitAll_nil, app_nil_r.
  - cbn [foldl]. unfold convertCircular at 2. cbn [fst snd].
    change (reportProgress ?i ?s ?d st) with (emitAll [ReportProgress i s d] st).
    rewrite IH, emitAll_app. by rewrite !fmap_cons, <- app_assoc.
Qed.

Lemma convertWalkError_spec (plan : Plan) (e : WalkError) (st : RunState) :
  convertWalkError plan e st
  = (emitAll ((handlerErrors e ≫= nodeCancelEvents plan) ++ circularEvents plan e) st,
     (nodeDeployError plan <$> handlerErrors e) ++ circularErrors plan e).
Proof.
  unfold convertWalkError, circularEvents, circularErrors.
  rewrite foldl_convertNodeError.
  destruct (circularDependencyError e) as [err|].
  - by rewrite foldl_convertCircular, emitAll_app.
  - by rewrite !app_nil_r.
Qed.

Lemma convertThrown_lists (plan : Plan) (thrown : Thrown) (st : RunState) :
  rsAppliedChanges (convertThrown plan thrown st).1 = rsAppliedChanges st
  ∧ rsDeploymentUrls (convertThrown plan thrown st).1 = rsDeploymentUrls st.
Proof.
  destruct thrown as [e|err]; [|done]. cbn. by rewrite convertWalkError_spec.
Qed.

(** C6: for a node that the walker reports as skipped, the outer catch
    reports the item as cancelled with the group key of the causing node as
    details, and adds one error for it, at the place of the node among the
    handler errors, with the group key of the item and the text that the item
    was not deployed as it depends on the causing node, which failed. *)
Theorem deployActions_skipped_node (plan : Plan)
    (adapters : gmap string AdapterOperations) (hook : PostDeployHook)
    (checkOnly : bool) (σ : Store) (st : RunState) (e : WalkError)
    (l1 : list (string * NodeError)) (key causingNode : string)
    (l2 : list (string * NodeError)) :
  walkAsync plan (nodeHandler (getItem plan) adapters hook checkOnly)
    (mkRunState [] [] σ []) = (st, Some (ThrownWalkError e)) →
  handlerErrors e = l1 ++ (key, NodeSkippedError causingNode) :: l2 →
  rsTrace (deployActions plan adapters hook checkOnly σ).1
  = rsTrace st
    ++ (l1 ≫= nodeCancelEvents plan)
    ++ [ReportProgress (getItem plan key) StatusCancelled
          (Some (groupKey (getItem plan causingNode)))]
    ++ (l2 ≫= nodeCancelEvents plan) ++ circularEvents plan e
  ∧ ∃ res,
      (deployActions plan adapters hook checkOnly σ).2 = inr res
      ∧ resultErrors res
        = (nodeDeployError plan <$> l1)
          ++ [mkDeployError (inl (groupKey (getItem plan key)))
                ("Element " +:+ key +:+ " was not deployed, as it depends on element "
                 +:+ causingNode +:+ " which failed to deploy")]
          ++ (nodeDeployError plan <$> l2) ++ circularErrors plan e.
Proof.
  intros Hwalk Hentries. unfold deployActions. rewrite Hwalk.
  cbn [convertThrown fst snd]. rewrite convertWalkError_spec, Hentries. cbn [fst snd].
  split.
  - cbn. rewrite bind_app, bind_cons. by rewrite <- !app_assoc.
  - eexists. split; [reflexivity|]. cbn.
    rewrite fmap_app, fmap_cons. by rewrite <- !app_assoc.
Qed.

Lemma chainPlan_walk :
  walkAsync chainPlan chainHandler (mkRunState [] [] store0 [])
  = ((walkAsync chainPlan chainHandler state0).1, Some (ThrownWalkError chainWalkError)).
Proof. by vm_compute. Qed.

Lemma deployActions_skipped_node_witness :
  rsTrace (deployActions chainPlan {[ "salto" := partialAdapter ]} noHook false store0).1
  = rsTrace (walkAsync chainPlan chainHandler state0).1
    ++ ([("x", HandlerError (newError (failureMessage false itemX partialResult)))]
          ≫= nodeCancelEvents chainPlan)
    ++ [ReportProgress (getItem chainPlan "y") StatusCancelled
          (Some (groupKey (getItem chainPlan "x")))]
    ++ ([] ≫= nodeCancelEvents chainPlan) ++ circularEvents chainPlan chainWalkError
  ∧ ∃ res,
      (deployActions chainPlan {[ "salto" := partialAdapter ]} noHook false store0).2
      = inr res
      ∧ resultErrors res
        = (nodeDeployError chainPlan
             <$> [("x", HandlerError (newError (failureMessage false itemX partialResult)))])
          ++ [mkDeployError (inl (groupKey (getItem chainPlan "y")))
                ("Element " +:+ "y" +:+ " was not deployed, as it depends on element "
                 +:+ "x" +:+ " which failed to deploy")]
          ++ (nodeDeployError chainPlan <$> []) ++ circularErrors chainPlan chainWalkError.
Proof.
  apply (deployActions_skipped_node chainPlan {[ "salto" := partialAdapter ]} noHook
           false store0 (walkAsync chainPlan chainHandler state0).1 chainWalkError).
  - exact chainPlan_walk.
  - reflexivity.
Defined.

(** ** An error of the walk that is not a WalkError *)

(** C3: what the code does where the sentence fails.  When the walk throws
    something that is not a [WalkError], the outer catch, unlike the inner
    one, does not throw it again: [deployActions] fulfils with an empty error
    list and the lists gathered so far, as it does after a walk that threw
    nothing. *)
Theorem deployActions_swallows_non_walk_error (plan : Plan)
    (adapters : gmap string AdapterOperations) (hook : PostDeployHook)
    (checkOnly : bool) (σ : Store) (st : RunState) (err : Error) :
  walkAsync plan (nodeHandler (getItem plan) adapters hook checkOnly)
    (mkRunState [] [] σ []) = (st, Some (ThrownOther err)) →
  deployActions plan adapters hook checkOnly σ
  = (st, inr (mkDeployActionResult [] (rsAppliedChanges st)
                (mkExtra (Some (rsDeploymentUrls st))))).
Proof. intros H. unfold deployActions. by rewrite H. Qed.

Lemma deployActions_swallows_non_walk_error_witness :
  deployActions brokenPlan ∅ noHook false store0
  = (state0, inr (mkDeployActionResult [] (rsAppliedChanges state0)
                    (mkExtra (Some (rsDeploymentUrls state0))))).
Proof.
  apply (deployActions_swallows_non_walk_error brokenPlan ∅ noHook false store0 state0
           walkerBug).
  reflexivity.
Defined.

(** ** Partial progress *)

Lemma deployAction_lists (planItem : PlanItem) (adapters : gmap string AdapterOperations)
    (checkOnly : bool) (st : RunState) :
  rsAppliedChanges (deployAction planItem adapters checkOnly st).1 = rsAppliedChanges st
  ∧ rsDeploymentUrls (deployAction planItem adapters checkOnly st).1 = rsDeploymentUrls st.
Proof.
  unfold deployAction. destruct (changes planItem !! 0%nat) as [first|]; [|done].
  destruct (adapters !! adapter (elemID (getChangeData first))) as [ad|]; [|done].
  unfold deployOrValidate, callAdapter.
  destruct checkOnly; cbn; [destruct (validate ad)|]; done.
Qed.

Lemma nodeHandler_lists_grow (itemOf : string → PlanItem)
    (adapters : gmap string AdapterOperations) (hook : PostDeployHook)
    (checkOnly : bool) (itemId : string) (st : RunState) :
  rsAppliedChanges st
    `prefix_of` rsAppliedChanges (nodeHandler itemOf adapters hook checkOnly itemId st).1
  ∧ rsDeploymentUrls st
    `prefix_of` rsDeploymentUrls (nodeHandler itemOf adapters hook checkOnly itemId st).1.
Proof.
  unfold nodeHandler.
  destruct (deployAction_lists (itemOf itemId) adapters checkOnly
              (reportProgress (itemOf itemId) StatusStarted None st)) as [Ha Hu].
  destruct (deployAction _ _ _ _) as [st1 [err|result]]; cbn in Ha, Hu.
  - cbn. by rewrite Ha, Hu.
  - destruct (afterDispatch_spec (itemOf itemId) hook checkOnly result st1)
      as (Ha' & Hu' & _).
    rewrite Ha', Hu', Ha, Hu. split; by eexists.
Qed.

(** The sequential walker touches the run state through the handler only. *)
Lemma walkNodes_lists_grow (edges : list (string * string)) (handler : Handler) :
  (∀ n s, rsAppliedChanges s `prefix_of` rsAppliedChanges (handler n s).1
          ∧ rsDeploymentUrls s `prefix_of` rsDeploymentUrls (handler n s).1) →
  ∀ fuel pending succeeded failures st,
    rsAppliedChanges st
      `prefix_of` rsAppliedChanges
                    (walkNodes fuel edges handler pending succeeded failures st).1
    ∧ rsDeploymentUrls st
      `prefix_of` rsDeploymentUrls
                    (walkNodes fuel edges handler pending succeeded failures st).1.
Proof.
  intros Hh.
  assert (Hfin : ∀ pending failures st, (finishWalk edges pending failures st).1 = st).
  { intros pending failures st. unfold finishWalk.
    by destruct failures, (filter _ pending). }
  induction fuel as [|fuel IH]; intros pending succeeded failures st; cbn [walkNodes].
  - by rewrite Hfin.
  - destruct (head _) as [n|]; [|by rewrite Hfin].
    destruct (head _) as [d|]; [apply IH|].
    specialize (Hh n st). destruct (handler n st) as [st' [e|]]; cbn in Hh;
      destruct Hh as [Ha Hu];
      (split; [etrans; [exact Ha|apply IH] | etrans; [exact Hu|apply IH]]).
Qed.

Lemma runHandlers_lists_grow (itemOf : string → PlanItem)
    (adapters : gmap string AdapterOperations) (hook : PostDeployHook)
    (checkOnly : bool) (ids : list string) (st : RunState) :
  rsAppliedChanges st
    `prefix_of` rsAppliedChanges
                  (runHandlers (nodeHandler itemOf adapters hook checkOnly) ids st)
  ∧ rsDeploymentUrls st
    `prefix_of` rsDeploymentUrls
                  (runHandlers (nodeHandler itemOf adapters hook checkOnly) ids st).
Proof.
  revert st. induction ids as [|id ids IH]; intros st; [done|].
  unfold runHandlers in *. cbn [foldl].
  destruct (nodeHandler_lists_grow itemOf adapters hook checkOnly id st) as [Ha Hu].
  destruct (IH (nodeHandler itemOf adapters hook checkOnly id st).1) as [Ha' Hu'].
  split; etrans; done.
Qed.

Lemma runHandlers_snoc (handler : Handler) (ids1 : list string) (id : string)
    (ids2 : list string) (st : RunState) :
  runHandlers handler (ids1 ++ id :: ids2) st
  = runHandlers handler ids2 (handler id (runHandlers handler ids1 st)).1.
Proof. unfold runHandlers. by rewrite foldl_app. Qed.

Lemma nodeHandler_fulfilled_lists (itemOf : string → PlanItem)
    (adapters : gmap string AdapterOperations) (hook : PostDeployHook)
    (checkOnly : bool) (itemId : string) (st st1 : RunState) (result : DeployResult) :
  deployAction (itemOf itemId) adapters checkOnly
    (reportProgress (itemOf itemId) StatusStarted None st) = (st1, inr result) →
  rsAppliedChanges (nodeHandler itemOf adapters hook checkOnly itemId st).1
  = rsAppliedChanges st ++ appliedChanges result
  ∧ rsDeploymentUrls (nodeHandler itemOf adapters hook checkOnly itemId st).1
    = rsDeploymentUrls st ++ urlsOf result.
Proof.
  intros Hd.
  destruct (deployAction_lists (itemOf itemId) adapters checkOnly
              (reportProgress (itemOf itemId) StatusStarted None st)) as [Ha Hu].
  rewrite Hd in Ha, Hu. cbn in Ha, Hu.
  unfold nodeHandler. rewrite Hd.
  destruct (afterDispatch_spec (itemOf itemId) hook checkOnly result st1)
    as (Ha' & Hu' & _).
  by rewrite Ha', Hu', Ha, Hu.
Qed.

(** C4: when the walk fails in the state that the handlers of some nodes
    have produced, run one after the other, then for each of these nodes whose
    dispatch fulfilled, the applied changes and the deployment URLs of its
    result are in the result that [deployActions] returns, right after what
    the nodes before it had gathered. *)
Theorem deployActions_partial_progress (plan : Plan)
    (adapters : gmap string AdapterOperations) (hook : PostDeployHook)
    (checkOnly : bool) (σ : Store) (st : RunState) (thrown : Thrown)
    (ids1 : list string) (id : string) (ids2 : list string)
    (st1 : RunState) (result : DeployResult) :
  walkAsync plan (nodeHandler (getItem plan) adapters hook checkOnly)
    (mkRunState [] [] σ []) = (st, Some thrown) →
  st = runHandlers (nodeHandler (getItem plan) adapters hook checkOnly)
         (ids1 ++ id :: ids2) (mkRunState [] [] σ []) →
  deployAction (getItem plan id) adapters checkOnly
    (reportProgress (getItem plan id) StatusStarted None
       (runHandlers (nodeHandler (getItem plan) adapters hook checkOnly) ids1
          (mkRunState [] [] σ []))) = (st1, inr result) →
  ∃ res later laterUrls,
    (deployActions plan adapters hook checkOnly σ).2 = inr res
    ∧ resultAppliedChanges res
      = rsAppliedChanges
          (runHandlers (nodeHandler (getItem plan) adapters hook checkOnly) ids1
             (mkRunState [] [] σ []))
        ++ appliedChanges result ++ later
    ∧ resultExtraProperties res
      = mkExtra (Some (rsDeploymentUrls
                         (runHandlers (nodeHandler (getItem plan) adapters hook checkOnly)
                            ids1 (mkRunState [] [] σ []))
                       ++ urlsOf result ++ laterUrls)).
Proof.
  intros Hwalk Hst Hd.
  destruct (nodeHandler_fulfilled_lists _ _ hook _ _ _ _ _ Hd) as [Ha Hu].
  rewrite runHandlers_snoc in Hst.
  destruct (runHandlers_lists_grow (getItem plan) adapters hook checkOnly ids2
              (nodeHandler (getItem plan) adapters hook checkOnly id
                 (runHandlers (nodeHandler (getItem plan) adapters hook checkOnly) ids1
                    (mkRunState [] [] σ []))).1)
    as [[later Hlater] [laterUrls HlaterUrls]].
  rewrite <- Hst, Ha in Hlater. rewrite <- Hst, Hu in HlaterUrls.
  unfold deployActions. rewrite Hwalk.
  destruct (convertThrown_lists plan thrown st) as [Hca Hcu].
  exists (resultOf (convertThrown plan thrown st).2 (convertThrown plan thrown st).1),
    later, laterUrls.
  split; [done|]. cbn. rewrite Hca, Hcu, Hlater, HlaterUrls.
  by rewrite <- !app_assoc.
Qed.

Lemma deployActions_partial_progress_witness :
  ∃ res later laterUrls,
    (deployActions chainPlan {[ "salto" := partialAdapter ]} noHook false store0).2
    = inr res
    ∧ resultAppliedChanges res
      = rsAppliedChanges
          (runHandlers
             (nodeHandler (getItem chainPlan) {[ "salto" := partialAdapter ]} noHook false)
             [] (mkRunState [] [] store0 []))
        ++ appliedChanges partialResult ++ later
    ∧ resultExtraProperties res
      = mkExtra (Some (rsDeploymentUrls
                         (runHandlers
                            (nodeHandler (getItem chainPlan)
                               {[ "salto" := partialAdapter ]} noHook false)
                            [] (mkRunState [] [] store0 []))
                       ++ urlsOf partialResult ++ laterUrls)).
Proof.
  apply (deployActions_partial_progress chainPlan {[ "salto" := partialAdapter ]} noHook
           false store0 (walkAsync chainPlan chainHandler state0).1
           (ThrownWalkError chainWalkError) [] "x" []
           (mkRunState [] [] store0
              [ReportProgress itemX StatusStarted None;
               AdapterDeploy "salto" (mkDeployOptions (mkChangeGroup "groupX" (changes itemX)))])).
  - exact chainPlan_walk.
  - by vm_compute.
  - reflexivity.
Defined.

(** ** The model on the sample data *)

Example updatePlanElement_sample :
  updatePlanElement itemX [Addition liveX] store0 !! 1%nat
  = Some {[ "label" := VPrim "x"; "id" := VPrim "41" ]}.
Proof. by vm_compute. Qed.

Example updatePlanElement_last_wins :
  updatePlanElement itemXX [Addition liveX; Addition liveX'] store0 !! 1%nat
  = Some {[ "label" := VPrim "x" ]}
  ∧ updatePlanElement itemXX [Addition liveX; Addition liveX'] store0 !! 2%nat
    = Some {[ "label" := VPrim "x"; "id" := VPrim "42" ]}.
Proof. by vm_compute. Qed.

Example deployActions_chain :
  (deployActions chainPlan {[ "salto" := partialAdapter ]} noHook false store0).2
  = inr (mkDeployActionResult
           [mkDeployError (inl "groupX") (failureMessage false itemX partialResult);
            mkDeployError (inl "groupY")
              "Element y was not deployed, as it depends on element x which failed to deploy"]
           [Addition liveX]
           (mkExtra (Some ["https://service.example/deployments/7"]))).
Proof. by vm_compute. Qed.

Example deployActions_chain_trace :
  rsTrace (deployActions chainPlan {[ "salto" := partialAdapter ]} noHook false store0).1
  = [ReportProgress itemX StatusStarted None;
     AdapterDeploy "salto" (mkDeployOptions (mkChangeGroup "groupX" (changes itemX)));
     PostDeployAction [Addition liveX];
     ReportProgress itemX StatusError (Some (failureMessage false itemX partialResult));
     ReportProgress itemY StatusCancelled (Some "groupX")].
Proof. by vm_compute. Qed.

Example deployActions_success :
  (deployActions chainPlan {[ "salto" := echoAdapter ]} noHook false store0).2
  = inr (mkDeployActionResult [] [Addition planX; Addition planY] (mkExtra (Some []))).
Proof. by vm_compute. Qed.

Example deployActions_cycle :
  (deployActions (planOf [("x", itemX); ("y", itemY)] [("y", "x"); ("x", "y")])
     {[ "salto" := echoAdapter ]} noHook false store0).2
  = inr (mkDeployActionResult
           [mkDeployError (inl "groupX") (circularText ["x"; "y"]);
            mkDeployError (inl "groupY") (circularText ["x"; "y"])]
           [] (mkExtra (Some []))).
Proof. by vm_compute. Qed.

Example deployActions_broken_walker :
  deployActions brokenPlan ∅ noHook false store0
  = (state0, inr (mkDeployActionResult [] [] (mkExtra (Some [])))).
Proof. reflexivity. Qed.

(** * Further properties of the dispatch and of the handler *)

Lemma deployAction_trace_cases (planItem : PlanItem)
    (adapters : gmap string AdapterOperations) (checkOnly : bool) (st : RunState) :
  (rsTrace (deployAction planItem adapters checkOnly st).1 = rsTrace st
   ∧ rsStore (deployAction planItem adapters checkOnly st).1 = rsStore st
   ∧ ∃ err, (deployAction planItem adapters checkOnly st).2 = inl err)
  ∨ (∃ first,
       changes planItem !! 0%nat = Some first
       ∧ rsTrace (deployAction planItem adapters checkOnly st).1
         = rsTrace st
           ++ [adapterCallOf checkOnly (adapter (elemID (getChangeData first)))
                 (optsOf planItem)]).
Proof.
  unfold deployAction. destruct (changes planItem !! 0%nat) as [first|] eqn:Hfirst.
  - destruct (adapters !! adapter (elemID (getChangeData first))) as [ad|].
    + unfold deployOrValidate, callAdapter.
      destruct checkOnly; cbn; [destruct (validate ad) as [v|]|].
      * right. by exists first.
      * left. eauto.
      * right. by exists first.
    + left. eauto.
  - left. eauto.
Qed.

Lemma deployAction_calls (planItem : PlanItem)
    (adapters : gmap string AdapterOperations) (checkOnly : bool) (st : RunState) :
  ∃ calls,
    rsTrace (deployAction planItem adapters checkOnly st).1 = rsTrace st ++ calls
    ∧ Forall isAdapterCall calls.
Proof.
  destruct (deployAction_trace_cases planItem adapters checkOnly st)
    as [(Htr & _ & _)|(first & _ & Htr)].
  - exists []. by rewrite app_nil_r.
  - eexists [_]. split; [exact Htr|]. repeat constructor. by destruct checkOnly.
Qed.

(** X1: a dispatch makes at most one adapter call, and none means it has
    failed: either the trace and the element objects are as before and the
    outcome is a rejection, or the one new event is the call, deploy in normal
    mode and validate in check-only mode, of the adapter named by the first
    change, with the group key and all the changes of the item.  The run-wide
    lists are never touched. *)
Theorem deployAction_one_call (planItem : PlanItem)
    (adapters : gmap string AdapterOperations) (checkOnly : bool) (st : RunState) :
  rsAppliedChanges (deployAction planItem adapters checkOnly st).1 = rsAppliedChanges st
  ∧ rsDeploymentUrls (deployAction planItem adapters checkOnly st).1 = rsDeploymentUrls st
  ∧ ((rsTrace (deployAction planItem adapters checkOnly st).1 = rsTrace st
      ∧ rsStore (deployAction planItem adapters checkOnly st).1 = rsStore st
      ∧ ∃ err, (deployAction planItem adapters checkOnly st).2 = inl err)
     ∨ (∃ first,
          changes planItem !! 0%nat = Some first
          ∧ rsTrace (deployAction planItem adapters checkOnly st).1
            = rsTrace st
              ++ [adapterCallOf checkOnly (adapter (elemID (getChangeData first)))
                    (mkDeployOptions
                       (mkChangeGroup (groupKey planItem) (changes planItem)))])).
Proof.
  destruct (deployAction_lists planItem adapters checkOnly st) as [Ha Hu].
  split; [done|]. split; [done|]. apply deployAction_trace_cases.
Qed.

(** X2: the dispatch reads the adapters only at the name of the first
    change: two adapter tables that agree there give the same dispatch, so
    the changes of an item all go to the adapter of its first change, whatever
    adapters the other changes name. *)
Theorem deployAction_adapter_of_first (planItem : PlanItem)
    (adapters1 adapters2 : gmap string AdapterOperations) (checkOnly : bool)
    (st : RunState) :
  (∀ first, changes planItem !! 0%nat = Some first →
            adapters1 !! adapter (elemID (getChangeData first))
            = adapters2 !! adapter (elemID (getChangeData first))) →
  deployAction planItem adapters1 checkOnly st
  = deployAction planItem adapters2 checkOnly st.
Proof.
  intros H. unfold deployAction.
  destruct (changes planItem !! 0%nat) as [first|]; [|done].
  by rewrite (H first eq_refl).
Qed.

Lemma deployAction_adapter_of_first_witness :
  deployAction itemXY {[ "salto" := echoAdapter ]} false state0
  = deployAction itemXY {[ "salto" := echoAdapter; "jira" := partialAdapter ]} false state0.
Proof.
  apply (deployAction_adapter_of_first itemXY {[ "salto" := echoAdapter ]}
           {[ "salto" := echoAdapter; "jira" := partialAdapter ]} false state0).
  intros first Hfirst. injection Hfirst as <-. reflexivity.
Defined.

(** X3: when no adapter is registered under the name of the first change,
    and that name is not one a plain object inherits, the handler reports
    started, then error with the text that the adapter is
    missing, and fails with that error; no adapter and no hook is called and
    lists and element objects stay as they were. *)
Theorem nodeHandler_missing_adapter (itemOf : string → PlanItem)
    (adapters : gmap string AdapterOperations) (hook : PostDeployHook)
    (checkOnly : bool) (itemId : string) (st : RunState) (first : Change) :
  changes (itemOf itemId) !! 0%nat = Some first →
  adapters !! adapter (elemID (getChangeData first)) = None →
  adapter (elemID (getChangeData first)) ∉ objectPrototypeKeys →
  nodeHandler itemOf adapters hook checkOnly itemId st
  = (mkRunState (rsAppliedChanges st) (rsDeploymentUrls st) (rsStore st)
       (rsTrace st
        ++ [ReportProgress (itemOf itemId) StatusStarted None;
            ReportProgress (itemOf itemId) StatusError
              (Some ("Missing adapter for " +:+ adapter (elemID (getChangeData first))))]),
     Some (newError ("Missing adapter for " +:+ adapter (elemID (getChangeData first))))).
Proof.
  intros Hfirst Hnone _. unfold nodeHandler, deployAction. rewrite Hfirst, Hnone.
  unfold handlerCatch, reportProgress, emit. cbn. by rewrite <- app_assoc.
Qed.

Lemma nodeHandler_missing_adapter_witness :
  nodeHandler (λ _, itemX) ∅ noHook false "x" state0
  = (mkRunState (rsAppliedChanges state0) (rsDeploymentUrls state0) (rsStore state0)
       (rsTrace state0
        ++ [ReportProgress itemX StatusStarted None;
            ReportProgress itemX StatusError
              (Some ("Missing adapter for "
                     +:+ adapter (elemID (getChangeData (Addition planX)))))]),
     Some (newError ("Missing adapter for "
                     +:+ adapter (elemID (getChangeData (Addition planX)))))).
Proof.
  apply (nodeHandler_missing_adapter (λ _, itemX) ∅ noHook false "x" state0
           (Addition planX)); [reflexivity|reflexivity|].
  vm_compute. intros H.
  repeat (apply elem_of_cons in H as [H|H]; [discriminate H|]).
  by apply elem_of_nil in H.
Defined.

(** X4: when the dispatch rejects with an [Error], the handler fails with that same error
    and reports its message; the hook is not called, the run-wide lists are as
    before and the plan elements are not patched: the element objects are as
    the dispatch left them. *)
Theorem nodeHandler_dispatch_rejected (itemOf : string → PlanItem)
    (adapters : gmap string AdapterOperations) (hook : PostDeployHook)
    (checkOnly : bool) (itemId : string) (st st1 : RunState) (error : Error) :
  deployAction (itemOf itemId) adapters checkOnly
    (reportProgress (itemOf itemId) StatusStarted None st) = (st1, inl error) →
  (nodeHandler itemOf adapters hook checkOnly itemId st).2 = Some error
  ∧ rsAppliedChanges (nodeHandler itemOf adapters hook checkOnly itemId st).1
    = rsAppliedChanges st
  ∧ rsDeploymentUrls (nodeHandler itemOf adapters hook checkOnly itemId st).1
    = rsDeploymentUrls st
  ∧ rsStore (nodeHandler itemOf adapters hook checkOnly itemId st).1 = rsStore st1
  ∧ ∃ calls,
      Forall isAdapterCall calls
      ∧ rsTrace (nodeHandler itemOf adapters hook checkOnly itemId st).1
        = rsTrace st
          ++ [ReportProgress (itemOf itemId) StatusStarted None]
          ++ calls
          ++ [ReportProgress (itemOf itemId) StatusError (Some (message error))].
Proof.
  intros Hd.
  destruct (deployAction_lists (itemOf itemId) adapters checkOnly
              (reportProgress (itemOf itemId) StatusStarted None st)) as [Ha Hu].
  destruct (deployAction_calls (itemOf itemId) adapters checkOnly
              (reportProgress (itemOf itemId) StatusStarted None st))
    as (calls & Htr & Hcalls).
  unfold nodeHandler. rewrite Hd in *. cbn in *.
  repeat split; try done.
  exists calls. split; [done|]. rewrite Htr. by rewrite <- !app_assoc.
Qed.

Lemma nodeHandler_dispatch_rejected_witness :
  (nodeHandler (λ _, itemX) {[ "salto" := partialAdapter ]} noHook true "x" state0).2
  = Some (newError "Check-Only deployment is not supported in adapter salto")
  ∧ rsAppliedChanges
      (nodeHandler (λ _, itemX) {[ "salto" := partialAdapter ]} noHook true "x" state0).1
    = rsAppliedChanges state0
  ∧ rsDeploymentUrls
      (nodeHandler (λ _, itemX) {[ "salto" := partialAdapter ]} noHook true "x" state0).1
    = rsDeploymentUrls state0
  ∧ rsStore
      (nodeHandler (λ _, itemX) {[ "salto" := partialAdapter ]} noHook true "x" state0).1
    = rsStore (reportProgress itemX StatusStarted None state0)
  ∧ ∃ calls,
      Forall isAdapterCall calls
      ∧ rsTrace
          (nodeHandler (λ _, itemX) {[ "salto" := partialAdapter ]} noHook true "x" state0).1
        = rsTrace state0
          ++ [ReportProgress itemX StatusStarted None]
          ++ calls
          ++ [ReportProgress itemX StatusError
                (Some (message
                         (newError "Check-Only deployment is not supported in adapter salto")))].
Proof.
  apply (nodeHandler_dispatch_rejected (λ _, itemX) {[ "salto" := partialAdapter ]}
           noHook true "x" state0).
  reflexivity.
Defined.

(** X5: as long as adapter and hook reject with an [Error] if they reject,
    every run of the handler reports started first and closes with one
    report that matches its outcome, finished when it succeeds and error with
    the message of the failure when it fails; between the two there are only
    adapter and hook calls, no report. *)
Theorem nodeHandler_report_protocol (itemOf : string → PlanItem)
    (adapters : gmap string AdapterOperations) (hook : PostDeployHook)
    (checkOnly : bool) (itemId : string) (st : RunState) :
  ∃ middle,
    rsTrace (nodeHandler itemOf adapters hook checkOnly itemId st).1
    = rsTrace st
      ++ [ReportProgress (itemOf itemId) StatusStarted None]
      ++ middle
      ++ [terminalReport (itemOf itemId)
            (nodeHandler itemOf adapters hook checkOnly itemId st).2]
    ∧ Forall (λ ev, ¬ isProgressReport ev) middle.
Proof.
  destruct (deployAction_calls (itemOf itemId) adapters checkOnly
              (reportProgress (itemOf itemId) StatusStarted None st))
    as (calls & Htr & Hcalls).
  assert (Hquiet : Forall (λ ev, ¬ isProgressReport ev) calls).
  { eapply Forall_impl; [exact Hcalls|]. intros []; simpl; tauto. }
  unfold nodeHandler.
  destruct (deployAction _ _ _ _) as [st1 [err|result]]; cbn [fst] in Htr.
  - exists calls. split; [|done]. cbn. rewrite Htr. cbn. by rewrite <- !app_assoc.
  - destruct (afterDispatch_spec (itemOf itemId) hook checkOnly result st1)
      as (_ & _ & Hout).
    exists (calls ++ [PostDeployAction (appliedChanges result)]). split.
    + destruct (hook _ _) as [σh [e|]]; cbn [snd] in Hout;
        [|destruct (errors result)]; destruct Hout as [-> ->];
        rewrite Htr; cbn; by rewrite <- !app_assoc.
    + apply Forall_app. split; [done|]. repeat constructor. simpl. tauto.
Qed.

(** X6: when the dispatch fulfils and the hook rejects with an [Error], the handler fails
    with the error of the hook, whether or not the adapter reported errors,
    and those are then in no report; the applied changes and URLs of the
    result are on the run-wide lists all the same. *)
Theorem nodeHandler_hook_rejected (itemOf : string → PlanItem)
    (adapters : gmap string AdapterOperations) (hook : PostDeployHook)
    (checkOnly : bool) (itemId : string) (st st1 : RunState) (result : DeployResult)
    (σh : Store) (e : Error) :
  deployAction (itemOf itemId) adapters checkOnly
    (reportProgress (itemOf itemId) StatusStarted None st) = (st1, inr result) →
  hook (appliedChanges result)
    (updatePlanElement (itemOf itemId) (appliedChanges result) (rsStore st1))
  = (σh, Some e) →
  (nodeHandler itemOf adapters hook checkOnly itemId st).2 = Some e
  ∧ rsTrace (nodeHandler itemOf adapters hook checkOnly itemId st).1
    = rsTrace st1
      ++ [PostDeployAction (appliedChanges result);
          ReportProgress (itemOf itemId) StatusError (Some (message e))]
  ∧ rsStore (nodeHandler itemOf adapters hook checkOnly itemId st).1 = σh
  ∧ rsAppliedChanges (nodeHandler itemOf adapters hook checkOnly itemId st).1
    = rsAppliedChanges st ++ appliedChanges result
  ∧ rsDeploymentUrls (nodeHandler itemOf adapters hook checkOnly itemId st).1
    = rsDeploymentUrls st ++ urlsOf result.
Proof.
  intros Hd Hh.
  destruct (deployAction_lists (itemOf itemId) adapters checkOnly
              (reportProgress (itemOf itemId) StatusStarted None st)) as [Ha Hu].
  rewrite Hd in Ha, Hu. cbn in Ha, Hu.
  unfold nodeHandler. rewrite Hd.
  destruct (afterDispatch_spec (itemOf itemId) hook checkOnly result st1)
    as (Ha' & Hu' & Hout).
  rewrite Hh in Hout. cbn [snd] in Hout. destruct Hout as [Ho Ht].
  rewrite Ha', Hu', Ha, Hu. repeat split; try done.
  unfold afterDispatch, callPostDeployAction. cbn [rsStore setStore].
  rewrite recordUrls_store. cbn [rsStore pushApplied]. by rewrite Hh.
Qed.

Lemma nodeHandler_hook_rejected_witness :
  (nodeHandler (λ _, itemX) {[ "salto" := partialAdapter ]} lockedHook false "x" state0).2
  = Some (mkError "Error" "state file is locked")
  ∧ rsTrace
      (nodeHandler (λ _, itemX) {[ "salto" := partialAdapter ]} lockedHook false "x" state0).1
    = rsTrace
        (deployAction itemX {[ "salto" := partialAdapter ]} false
           (reportProgress itemX StatusStarted None state0)).1
      ++ [PostDeployAction (appliedChanges partialResult);
          ReportProgress itemX StatusError
            (Some (message (mkError "Error" "state file is locked")))]
  ∧ rsStore
      (nodeHandler (λ _, itemX) {[ "salto" := partialAdapter ]} lockedHook false "x" state0).1
    = updatePlanElement itemX [Addition liveX] store0
  ∧ rsAppliedChanges
      (nodeHandler (λ _, itemX) {[ "salto" := partialAdapter ]} lockedHook false "x" state0).1
    = rsAppliedChanges state0 ++ appliedChanges partialResult
  ∧ rsDeploymentUrls
      (nodeHandler (λ _, itemX) {[ "salto" := partialAdapter ]} lockedHook false "x" state0).1
    = rsDeploymentUrls state0 ++ urlsOf partialResult.
Proof.
  apply (nodeHandler_hook_rejected (λ _, itemX) {[ "salto" := partialAdapter ]}
           lockedHook false "x" state0
           (deployAction itemX {[ "salto" := partialAdapter ]} false
              (reportProgress itemX StatusStarted None state0)).1
           partialResult).
  - reflexivity.
  - reflexivity.
Defined.

(** X7: the handler succeeds exactly when the dispatch fulfils with a result
    without errors and the hook fulfils. *)
Theorem nodeHandler_succeeds_iff (itemOf : string → PlanItem)
    (adapters : gmap string AdapterOperations) (hook : PostDeployHook)
    (checkOnly : bool) (itemId : string) (st : RunState) :
  (nodeHandler itemOf adapters hook checkOnly itemId st).2 = None
  ↔ ∃ st1 result,
      deployAction (itemOf itemId) adapters checkOnly
        (reportProgress (itemOf itemId) StatusStarted None st) = (st1, inr result)
      ∧ errors result = []
      ∧ (hook (appliedChanges result)
           (updatePlanElement (itemOf itemId) (appliedChanges result) (rsStore st1))).2
        = None.
Proof.
  unfold nodeHandler.
  destruct (deployAction _ _ _ _) as [st1 [err|result]].
  - split; [done|]. by intros (? & ? & ? & _).
  - destruct (afterDispatch_spec (itemOf itemId) hook checkOnly result st1)
      as (_ & _ & Hout).
    split.
    + intros Hnone. exists st1, result. split; [done|].
      destruct (hook _ _) as [σh [e|]]; cbn [snd] in Hout;
        [|destruct (errors result)]; destruct Hout as [Ho _];
        rewrite Ho in Hnone; done.
    + intros (st1' & result' & [= <- <-] & Herr & Hhook).
      rewrite Hhook, Herr in Hout. by destruct Hout.
Qed.

Lemma nodeHandler_succeeds_iff_witness :
  (nodeHandler (λ _, itemX) {[ "salto" := echoAdapter ]} noHook false "x" state0).2 = None.
Proof.
  apply (nodeHandler_succeeds_iff (λ _, itemX) {[ "salto" := echoAdapter ]} noHook false
           "x" state0).
  eexists _, _. split; [reflexivity|]. split; reflexivity.
Defined.

(** * Further properties of the outer catch *)

Lemma nodeCancelEvents_catchReports (plan : Plan) (l : list (string * NodeError)) :
  Forall isCatchReport (l ≫= nodeCancelEvents plan).
Proof.
  apply Forall_bind, Forall_forall. intros [key [e|causingNode]] _; cbn.
  - constructor.
  - by repeat constructor.
Qed.

Lemma circularEvents_catchReports (plan : Plan) (e : WalkError) :
  Forall isCatchReport (circularEvents plan e).
Proof.
  unfold circularEvents. destruct (circularDependencyError e) as [err|]; [|constructor].
  apply Forall_fmap, Forall_forall. by intros id _.
Qed.

(** X8: after the walk, [deployActions] only reports: the element objects
    and the run-wide lists stay as the walk left them, and the events it adds
    are reports of cancelled or error with details; it calls no adapter and no
    hook and reports nothing started or finished. *)
Theorem deployActions_catch_only_reports (plan : Plan)
    (adapters : gmap string AdapterOperations) (hook : PostDeployHook)
    (checkOnly : bool) (σ : Store) :
  rsStore (deployActions plan adapters hook checkOnly σ).1
  = rsStore (walkAsync plan (nodeHandler (getItem plan) adapters hook checkOnly)
               (mkRunState [] [] σ [])).1
  ∧ rsAppliedChanges (deployActions plan adapters hook checkOnly σ).1
    = rsAppliedChanges (walkAsync plan (nodeHandler (getItem plan) adapters hook checkOnly)
                          (mkRunState [] [] σ [])).1
  ∧ rsDeploymentUrls (deployActions plan adapters hook checkOnly σ).1
    = rsDeploymentUrls (walkAsync plan (nodeHandler (getItem plan) adapters hook checkOnly)
                          (mkRunState [] [] σ [])).1
  ∧ ∃ evs,
      rsTrace (deployActions plan adapters hook checkOnly σ).1
      = rsTrace (walkAsync plan (nodeHandler (getItem plan) adapters hook checkOnly)
                   (mkRunState [] [] σ [])).1 ++ evs
      ∧ Forall isCatchReport evs.
Proof.
  unfold deployActions.
  destruct (walkAsync _ _ _) as [st [[e|err]|]]; cbn [fst snd convertThrown].
  - rewrite convertWalkError_spec. cbn. repeat split.
    eexists. split; [reflexivity|]. apply Forall_app. split.
    + apply nodeCancelEvents_catchReports.
    + apply circularEvents_catchReports.
  - repeat split. exists []. by rewrite app_nil_r.
  - repeat split. exists []. by rewrite app_nil_r.
Qed.

(** X9: the result has one error for each handler error of the [WalkError]
    and one for each node it names on a cycle; when the walk throws nothing,
    or throws something that is not a [WalkError], the error list is empty. *)
Theorem deployActions_error_count (plan : Plan)
    (adapters : gmap string AdapterOperations) (hook : PostDeployHook)
    (checkOnly : bool) (σ : Store) :
  ∃ res,
    (deployActions plan adapters hook checkOnly σ).2 = inr res
    ∧ length (resultErrors res)
      = reportedFailures
          (walkAsync plan (nodeHandler (getItem plan) adapters hook checkOnly)
             (mkRunState [] [] σ [])).2.
Proof.
  unfold deployActions.
  destruct (walkAsync _ _ _) as [st [[e|err]|]]; cbn [fst snd convertThrown];
    eexists; (split; [reflexivity|]); [|done..].
  cbn. rewrite convertWalkError_spec. cbn.
  rewrite length_app, length_fmap. f_equal.
  unfold circularErrors, circularIds.
  destruct (circularDependencyError e); [apply length_fmap|done].
Qed.

(** X10: for a node on a cycle, the outer catch reports the item as error
    with the message of the circular-dependency error and adds one error with
    the group key of the item and that message; these come after everything
    that stems from the handler errors, in the order of the node
    identifiers. *)
Theorem deployActions_circular_node (plan : Plan)
    (adapters : gmap string AdapterOperations) (hook : PostDeployHook)
    (checkOnly : bool) (σ : Store) (st : RunState) (e : WalkError)
    (err : CircularDependencyError) (ids1 : list string) (id : string)
    (ids2 : list string) :
  walkAsync plan (nodeHandler (getItem plan) adapters hook checkOnly)
    (mkRunState [] [] σ []) = (st, Some (ThrownWalkError e)) →
  circularDependencyError e = Some err →
  causingNodeIds err = ids1 ++ id :: ids2 →
  rsTrace (deployActions plan adapters hook checkOnly σ).1
  = rsTrace st
    ++ (handlerErrors e ≫= nodeCancelEvents plan)
    ++ (circularReportOf plan err <$> ids1)
    ++ [ReportProgress (getItem plan id) StatusError (Some (circularMessage err))]
    ++ (circularReportOf plan err <$> ids2)
  ∧ ∃ res,
      (deployActions plan adapters hook checkOnly σ).2 = inr res
      ∧ resultErrors res
        = (nodeDeployError plan <$> handlerErrors e)
          ++ (circularErrorOf plan err <$> ids1)
          ++ [mkDeployError (inl (groupKey (getItem plan id))) (circularMessage err)]
          ++ (circularErrorOf plan err <$> ids2).
Proof.
  intros Hwalk Hcirc Hids. unfold deployActions. rewrite Hwalk.
  cbn [convertThrown fst snd]. rewrite convertWalkError_spec.
  unfold circularEvents, circularErrors. rewrite Hcirc, Hids. cbn [fst snd].
  split.
  - cbn. rewrite fmap_app, fmap_cons. reflexivity.
  - eexists. split; [reflexivity|]. cbn. rewrite fmap_app, fmap_cons. reflexivity.
Qed.

Lemma cyclePlan_walk :
  walkAsync cyclePlan cycleHandler (mkRunState [] [] store0 [])
  = (state0, Some (ThrownWalkError (mkWalkError [] (Some cycleError)))).
Proof. by vm_compute. Qed.

Lemma deployActions_circular_node_witness :
  rsTrace (deployActions cyclePlan {[ "salto" := echoAdapter ]} noHook false store0).1
  = rsTrace state0
    ++ (handlerErrors (mkWalkError [] (Some cycleError)) ≫= nodeCancelEvents cyclePlan)
    ++ (circularReportOf cyclePlan cycleError <$> ["x"])
    ++ [ReportProgress (getItem cyclePlan "y") StatusError
          (Some (circularMessage cycleError))]
    ++ (circularReportOf cyclePlan cycleError <$> [])
  ∧ ∃ res,
      (deployActions cyclePlan {[ "salto" := echoAdapter ]} noHook false store0).2
      = inr res
      ∧ resultErrors res
        = (nodeDeployError cyclePlan <$> handlerErrors (mkWalkError [] (Some cycleError)))
          ++ (circularErrorOf cyclePlan cycleError <$> ["x"])
          ++ [mkDeployError (inl (groupKey (getItem cyclePlan "y")))
                (circularMessage cycleError)]
          ++ (circularErrorOf cyclePlan cycleError <$> []).
Proof.
  apply (deployActions_circular_node cyclePlan {[ "salto" := echoAdapter ]} noHook false
           store0 state0 (mkWalkError [] (Some cycleError)) cycleError ["x"] "y" []).
  - exact cyclePlan_walk.
  - reflexivity.
  - reflexivity.
Defined.

(** X11: for a node whose handler failed, the outer catch adds one error
    with the group key of the item and the message of the node's error, at the
    place of the node among the handler errors, and makes no report for it:
    the error report of that node is the one the handler made. *)
Theorem deployActions_failed_node (plan : Plan)
    (adapters : gmap string AdapterOperations) (hook : PostDeployHook)
    (checkOnly : bool) (σ : Store) (st : RunState) (e : WalkError)
    (l1 : list (string * NodeError)) (key : string) (nodeError : Error)
    (l2 : list (string * NodeError)) :
  walkAsync plan (nodeHandler (getItem plan) adapters hook checkOnly)
    (mkRunState [] [] σ []) = (st, Some (ThrownWalkError e)) →
  handlerErrors e = l1 ++ (key, HandlerError nodeError) :: l2 →
  rsTrace (deployActions plan adapters hook checkOnly σ).1
  = rsTrace st
    ++ (l1 ≫= nodeCancelEvents plan)
    ++ (l2 ≫= nodeCancelEvents plan) ++ circularEvents plan e
  ∧ ∃ res,
      (deployActions plan adapters hook checkOnly σ).2 = inr res
      ∧ resultErrors res
        = (nodeDeployError plan <$> l1)
          ++ [mkDeployError (inl (groupKey (getItem plan key))) (message nodeError)]
          ++ (nodeDeployError plan <$> l2) ++ circularErrors plan e.
Proof.
  intros Hwalk Hentries. unfold deployActions. rewrite Hwalk.
  cbn [convertThrown fst snd]. rewrite convertWalkError_spec, Hentries. cbn [fst snd].
  split.
  - cbn. rewrite bind_app, bind_cons. cbn. by rewrite <- !app_assoc.
  - eexists. split; [reflexivity|]. cbn.
    rewrite fmap_app, fmap_cons. by rewrite <- !app_assoc.
Qed.

Lemma deployActions_failed_node_witness :
  rsTrace (deployActions chainPlan {[ "salto" := partialAdapter ]} noHook false store0).1
  = rsTrace (walkAsync chainPlan chainHandler state0).1
    ++ ([] ≫= nodeCancelEvents chainPlan)
    ++ ([("y", NodeSkippedError "x")] ≫= nodeCancelEvents chainPlan)
    ++ circularEvents chainPlan chainWalkError
  ∧ ∃ res,
      (deployActions chainPlan {[ "salto" := partialAdapter ]} noHook false store0).2
      = inr res
      ∧ resultErrors res
        = (nodeDeployError chainPlan <$> [])
          ++ [mkDeployError (inl (groupKey (getItem chainPlan "x")))
                (message (newError (failureMessage false itemX partialResult)))]
          ++ (nodeDeployError chainPlan <$> [("y", NodeSkippedError "x")])
          ++ circularErrors chainPlan chainWalkError.
Proof.
  apply (deployActions_failed_node chainPlan {[ "salto" := partialAdapter ]} noHook
           false store0 (walkAsync chainPlan chainHandler state0).1 chainWalkError []).
  - exact chainPlan_walk.
  - reflexivity.
Defined.

(** * Further properties of updatePlanElement *)

Lemma keyBy_NoDup {A} (f : A → string) (l : list A) (x : A) :
  NoDup (f <$> l) → x ∈ l → keyBy f l !! f x = Some x.
Proof.
  intros Hnd Hx. apply list_elem_of_split in Hx as (l1 & l2 & ->).
  apply keyBy_last. intros y Hy Heq.
  rewrite fmap_app, fmap_cons in Hnd.
  apply NoDup_app in Hnd as (_ & _ & Hnd). apply NoDup_cons in Hnd as [Hnotin _].
  apply Hnotin. rewrite <- Heq. by apply list_elem_of_fmap_2.
Qed.

Lemma lastMatch_elem (byId : gmap string Element) (a : nat) (us : list Element)
    (u : Element) :
  lastMatch byId a us = Some u → u ∈ us.
Proof.
  induction us as [|u0 us IH]; [done|]. cbn [lastMatch].
  destruct (lastMatch byId a us) as [u'|].
  - intros [= <-]. apply elem_of_cons. right. by apply IH.
  - destruct (byId !! fullNameOf u0) as [pe|]; [|done].
    case_decide; [|done]. intros [= <-]. apply elem_of_cons. by left.
Qed.

(** The store after the patch loop, object by object, when no updated
    element is itself an object that the loop writes. *)
Lemma foldl_patchStep_lookup (byId : gmap string Element) (us : list Element) :
  (∀ u k pe, u ∈ us → byId !! k = Some pe → obj u ≠ obj pe) →
  ∀ (τ : Store) (a : nat),
    foldl (patchStep byId) τ us !! a
    = match lastMatch byId a us with
      | Some u => Some (τ !!! obj u)
      | None => τ !! a
      end.
Proof.
  induction us as [|u us IH]; intros Hfresh τ a; [done|].
  cbn [foldl lastMatch]. rewrite IH.
  2:{ intros u' k pe Hu'. apply Hfresh, elem_of_cons. by right. }
  destruct (lastMatch byId a us) as [u'|] eqn:Hlast.
  - f_equal. apply lastMatch_elem in Hlast.
    destruct (byId !! fullNameOf u) as [pe|] eqn:Hpe.
    + rewrite (patchStep_matched _ _ _ _ Hpe). apply lookup_total_insert_ne.
      intros Heq. eapply (Hfresh u'); [|exact Hpe|done].
      apply elem_of_cons. by right.
    + by rewrite patchStep_unmatched.
  - destruct (byId !! fullNameOf u) as [pe|] eqn:Hpe.
    + rewrite (patchStep_matched _ _ _ _ Hpe). case_decide as Ha.
      * subst a. apply lookup_insert_eq.
      * by apply lookup_insert_ne.
    + by rewrite patchStep_unmatched.
Qed.

(** X12: applying the applied changes in two batches, one after the other,
    gives the same element objects as applying them in one go. *)
Theorem updatePlanElement_batches (item : PlanItem) (l1 l2 : list Change) (σ : Store) :
  updatePlanElement item (l1 ++ l2) σ
  = updatePlanElement item l2 (updatePlanElement item l1 σ).
Proof.
  unfold updatePlanElement. by rewrite filter_app, fmap_app, foldl_app.
Qed.

(** X13: when the full names of the elements of the item are pairwise
    distinct and the applied changes are changes of the item itself, as an
    adapter gives them that hands back what it was given, the update leaves
    the fields of every object as they were. *)
Theorem updatePlanElement_echo (item : PlanItem) (applied : list Change) (σ : Store) :
  NoDup (fullNameOf <$> planElements item) →
  (∀ c, c ∈ applied → c ∈ changes item) →
  ∀ a, updatePlanElement item applied σ !!! a = σ !!! a.
Proof.
  intros Hnd Hsub a. unfold updatePlanElement.
  change (foldl ?s σ (getChangeData <$> filter ?P ?l)) with (foldl s σ (updatedElements l)).
  assert (Hself : ∀ u, u ∈ updatedElements applied →
            keyBy fullNameOf (planElements item) !! fullNameOf u = Some u).
  { intros u Hu. apply elem_of_updatedElements in Hu as (c & Hc & _ & ->).
    apply keyBy_NoDup; [done|]. apply list_elem_of_fmap_2. by apply Hsub. }
  revert σ. induction (updatedElements applied) as [|u us IH]; intros σ; [done|].
  cbn [foldl]. rewrite IH.
  2:{ intros u' Hu'. apply Hself, elem_of_cons. by right. }
  rewrite (patchStep_matched _ _ u u).
  2:{ apply Hself, elem_of_cons. by left. }
  destruct (decide (obj u = a)) as [<-|Hne].
  - apply lookup_total_insert_eq.
  - by apply lookup_total_insert_ne.
Qed.

Lemma updatePlanElement_echo_witness :
  updatePlanElement itemXY (changes itemXY) store0 !!! 1%nat = store0 !!! 1%nat.
Proof.
  apply (updatePlanElement_echo itemXY (changes itemXY) store0).
  - vm_compute. repeat constructor; intros H; repeat (apply elem_of_cons in H as [H|H]);
      try discriminate H; by apply elem_of_nil in H.
  - intros c Hc. exact Hc.
Defined.

(** X14: when no applied addition or modification carries an object of the
    item itself, updating a second time with the same applied changes changes
    nothing any more. *)
Theorem updatePlanElement_idempotent (item : PlanItem) (applied : list Change)
    (σ : Store) :
  (∀ c, c ∈ applied → isAdditionOrModificationChange c = true →
        obj (getChangeData c) ∉ obj <$> planElements item) →
  updatePlanElement item applied (updatePlanElement item applied σ)
  = updatePlanElement item applied σ.
Proof.
  intros Hfresh. unfold updatePlanElement. fold (updatedElements applied).
  set (byId := keyBy fullNameOf (planElements item)).
  assert (Hne : ∀ u k pe, u ∈ updatedElements applied → byId !! k = Some pe →
                          obj u ≠ obj pe).
  { intros u k pe Hu Hpe Heq.
    apply elem_of_updatedElements in Hu as (c & Hc & Hkind & ->).
    apply (Hfresh c Hc Hkind). rewrite Heq.
    apply keyBy_Some in Hpe as [_ Hin]. by apply list_elem_of_fmap_2. }
  apply map_eq. intros a. rewrite !foldl_patchStep_lookup by done.
  destruct (lastMatch byId a (updatedElements applied)) as [u|] eqn:Hlast; [|done].
  f_equal. apply lastMatch_elem in Hlast.
  rewrite !lookup_total_alt. f_equal. apply foldl_patchStep_frame.
  intros u' pe _ Hpe Heq. by eapply (Hne u).
Qed.

Lemma updatePlanElement_idempotent_witness :
  updatePlanElement itemX [Addition liveX] (updatePlanElement itemX [Addition liveX] store0)
  = updatePlanElement itemX [Addition liveX] store0.
Proof.
  apply (updatePlanElement_idempotent itemX [Addition liveX] store0).
  intros c Hc _. apply list_elem_of_singleton in Hc as ->.
  intros H. apply list_elem_of_singleton in H. discriminate H.
Defined.

(** * The result of a fulfilled dispatch is recorded first *)

(** X15: whenever the dispatch fulfils, and whatever follows, be it a
    rejecting hook, errors in the result or success, the handler has put the
    applied changes and URLs of the result at the end of the run-wide lists,
    has called the hook on the element objects as patched with the applied
    changes, and leaves the objects as the hook returned them. *)
Theorem nodeHandler_records_result (itemOf : string → PlanItem)
    (adapters : gmap string AdapterOperations) (hook : PostDeployHook)
    (checkOnly : bool) (itemId : string) (st st1 : RunState) (result : DeployResult) :
  deployAction (itemOf itemId) adapters checkOnly
    (reportProgress (itemOf itemId) StatusStarted None st) = (st1, inr result) →
  rsAppliedChanges (nodeHandler itemOf adapters hook checkOnly itemId st).1
  = rsAppliedChanges st ++ appliedChanges result
  ∧ rsDeploymentUrls (nodeHandler itemOf adapters hook checkOnly itemId st).1
    = rsDeploymentUrls st ++ urlsOf result
  ∧ rsStore (nodeHandler itemOf adapters hook checkOnly itemId st).1
    = (hook (appliedChanges result)
         (updatePlanElement (itemOf itemId) (appliedChanges result) (rsStore st1))).1.
Proof.
  intros Hd.
  destruct (deployAction_lists (itemOf itemId) adapters checkOnly
              (reportProgress (itemOf itemId) StatusStarted None st)) as [Ha Hu].
  rewrite Hd in Ha, Hu. cbn in Ha, Hu.
  unfold nodeHandler. rewrite Hd.
  destruct (afterDispatch_spec (itemOf itemId) hook checkOnly result st1)
    as (Ha' & Hu' & _).
  rewrite Ha', Hu', Ha, Hu. repeat split.
  unfold afterDispatch, callPostDeployAction. cbn [rsStore setStore].
  rewrite recordUrls_store. cbn [rsStore pushApplied].
  destruct (hook _ _) as [σh [e|]]; [done|]. by destruct (errors result).
Qed.

Lemma nodeHandler_records_result_witness :
  rsAppliedChanges
    (nodeHandler (λ _, itemX) {[ "salto" := echoAdapter ]} noHook false "x" state0).1
  = rsAppliedChanges state0 ++ appliedChanges (mkDeployResult (changes itemX) [] None)
  ∧ rsDeploymentUrls
      (nodeHandler (λ _, itemX) {[ "salto" := echoAdapter ]} noHook false "x" state0).1
    = rsDeploymentUrls state0 ++ urlsOf (mkDeployResult (changes itemX) [] None)
  ∧ rsStore
      (nodeHandler (λ _, itemX) {[ "salto" := echoAdapter ]} noHook false "x" state0).1
    = (noHook (appliedChanges (mkDeployResult (changes itemX) [] None))
         (updatePlanElement itemX
            (appliedChanges (mkDeployResult (changes itemX) [] None))
            (rsStore
               (deployAction itemX {[ "salto" := echoAdapter ]} false
                  (reportProgress itemX StatusStarted None state0)).1))).1.
Proof.
  apply (nodeHandler_records_result (λ _, itemX) {[ "salto" := echoAdapter ]} noHook
           false "x" state0).
  reflexivity.
Defined.

(** * The sequential walker on the sample plans *)

Lemma walkNodes_runs_handlers (edges : list (string * string)) (handler : Handler)
    (fuel : nat) (pending succeeded : list string) (failures : list (string * NodeError))
    (st : RunState) :
  ∃ ids, (walkNodes fuel edges handler pending succeeded failures st).1
         = runHandlers handler ids st.
Proof.
  assert (Hfin : ∀ pending failures st, (finishWalk edges pending failures st).1 = st).
  { intros p f s. unfold finishWalk. by destruct f, (filter _ p). }
  revert pending succeeded failures st.
  induction fuel as [|fuel IH]; intros pending succeeded failures st; cbn [walkNodes].
  - exists []. by rewrite Hfin.
  - destruct (head _) as [n|]; [|exists []; by rewrite Hfin].
    destruct (head _) as [d|]; [apply IH|].
    destruct (handler n st) as [st' [e|]] eqn:Hn.
    + destruct (IH (filter (λ m, m ≠ n) pending) succeeded
                  (failures ++ [(n, HandlerError e)]) st') as [ids Hids].
      exists (n :: ids). rewrite Hids. unfold runHandlers. cbn [foldl]. by rewrite Hn.
    + destruct (IH (filter (λ m, m ≠ n) pending) (succeeded ++ [n]) failures st')
        as [ids Hids].
      exists (n :: ids). rewrite Hids. unfold runHandlers. cbn [foldl]. by rewrite Hn.
Qed.

Example walk_chain_of_three :
  (walkAsync chain3Plan
     (nodeHandler (getItem chain3Plan) {[ "salto" := partialAdapter ]} noHook false)
     state0).2
  = Some (ThrownWalkError
            (mkWalkError
               [("x", HandlerError (newError (failureMessage false itemX partialResult)));
                ("y", NodeSkippedError "x"); ("z", NodeSkippedError "x")]
               None)).
Proof. by vm_compute. Qed.

Example walk_cycle_with_tail :
  (walkAsync cycleTailPlan
     (nodeHandler (getItem cycleTailPlan) {[ "salto" := echoAdapter ]} noHook false)
     state0).2
  = Some (ThrownWalkError (mkWalkError [] (Some cycleError))).
Proof. by vm_compute. Qed.
